(** * SwiftShare backend (server.js): naming, retention store, routes, sweeper

    A shallow embedding of [src/server.js].  Every definition carries the
    line range of the JavaScript it renders.  What the embedding abstracts:

    - [Date.now()] is a natural number of milliseconds; [Math.random()] is
      given by the base-36 digits of its fraction, which is all that
      [toString(36)] shows of it;
    - strings are byte strings; ["-"] is one byte in every encoding the
      server sees, so [split("-")] cuts at the same places;
    - the upload folder is a finite map from file name to file record, and
      [path.join(uploadFolder, name)] is the key [name] of that map, which
      is what it is for a plain file name (see [plain_name]); what a name
      with a path separator or a dot segment reaches outside the folder is
      not modelled;
    - [stats.mtimeMs] is a rational and the division of line 279 is exact;
      a blob written by an upload carries the clock reading of its naming;
    - [fileGroupMap] is the finite map of the object's own properties;
      identifiers that name a property every object inherits (such as
      [constructor]) are not told apart from unknown ones;
    - [fileGroups.json] is the map it parses to; a file that is empty or
      cut off parses to the empty map;
    - failures of the host (a failing [stat], [unlink], [readdir] or
      [writeFileSync]) are read from a [faults] record, and what the server
      prints is collected as a list of [log_entry];
    - callbacks run to completion in the order they are registered; the
      order in which the host lists a folder is not modelled;
    - a group download is modelled up to the entries it hands to the
      archive; what the archiver reports while it streams them (the
      handlers of lines 217-220) is not modelled;
    - the QR image of a link is the symbol [JQRCode link]. *)

From stdpp Require Import base gmap list strings pretty.
From Stdlib Require Import Ascii NArith ZArith QArith Lqa.

Close Scope Q_scope.
Open Scope string_scope.

(** ** JavaScript string primitives used by the server *)

Module JS.

Definition hyphen : ascii := "-"%char.

(** [s.split("-")]: never empty, [""] splits to [[""]]. *)
Fixpoint split (sep : ascii) (s : string) : list string :=
  match s with
  | EmptyString => [EmptyString]
  | String c rest =>
      if Ascii.eqb c sep then EmptyString :: split sep rest
      else match split sep rest with
           | [] => [String c EmptyString]
           | piece :: pieces => String c piece :: pieces
           end
  end.

(** [a.join("-")]. *)
Fixpoint join (sep : ascii) (a : list string) : string :=
  match a with
  | [] => EmptyString
  | [piece] => piece
  | piece :: pieces => piece +:+ String sep (join sep pieces)
  end.

(** [a.slice(1)]. *)
Definition slice1 (a : list string) : list string := drop 1 a.

(** [a[0]] of an array of strings; [None] is [undefined]. *)
Definition index0 (a : list string) : option string := head a.

(** [s.substring(from, to)] for [from <= to]; indices past the end of
    [s] are clamped to its length. *)
Definition substring (from to : nat) (s : string) : string :=
  String.substring from (to - from) s.

(** One digit of a radix-36 numeral: [0-9] then [a-z]. *)
Definition digit36 (d : N) : ascii :=
  let d := (d mod 36)%N in
  if (d <? 10)%N then ascii_of_N (48 + d) else ascii_of_N (87 + d).

Fixpoint toString36_digits (fuel : nat) (n : N) (acc : string) : string :=
  let acc' := String (digit36 n) acc in
  match fuel with
  | O => acc'
  | S fuel' =>
      if (n / 36 =? 0)%N then acc' else toString36_digits fuel' (n / 36)%N acc'
  end.

(** [n.toString(36)] for a non-negative integer [n]; the binary size of
    [n] bounds the number of radix-36 digits. *)
Definition toString36 (n : N) : string :=
  toString36_digits (N.size_nat n) n EmptyString.

(** [x.toString(36)] for [0 <= x < 1], [x] given by the radix-36 digits of
    its fraction: ["0"] for zero, else ["0."] and the digits. *)
Definition fraction_toString36 (digits : list N) : string :=
  match digits with
  | [] => "0"
  | _ => "0." +:+ String.string_of_list_ascii (digit36 <$> digits)
  end.

(** The value of one radix-36 digit, and [parseInt(s, 36)] on a string of
    such digits; the reading that [toString36] is checked against. *)
Definition digit_value (c : ascii) : N :=
  let n := N_of_ascii c in
  if (n <? 58)%N then (n - 48)%N else (n - 87)%N.

Fixpoint parseInt36_from (v : N) (s : string) : N :=
  match s with
  | EmptyString => v
  | String c rest => parseInt36_from (36 * v + digit_value c)%N rest
  end.

Definition parseInt36 (s : string) : N := parseInt36_from 0 s.

(** No ["-"] occurs in [s]. *)
Fixpoint hyphen_free (s : string) : bool :=
  match s with
  | EmptyString => true
  | String c rest => negb (Ascii.eqb c hyphen) && hyphen_free rest
  end.

(** [c] is one of [0-9a-z]. *)
Definition is_digit36 (c : ascii) : bool :=
  let n := N_of_ascii c in
  ((48 <=? n) && (n <=? 57) || (97 <=? n) && (n <=? 122))%N.

Fixpoint all_digit36 (s : string) : bool :=
  match s with
  | EmptyString => true
  | String c rest => is_digit36 c && all_digit36 rest
  end.

End JS.

(** ** Configuration (lines 11-14, 31, 71-72, 265-266) *)

Definition BASE_URL : string := "https://swiftshare-backend-jxag.onrender.com".
Definition MAX_FILE_SIZE : N := 50 * 1024 * 1024.
Definition MAX_FILE_COUNT : nat := 4.
Definition FILE_EXPIRY_HOURS : Q := (24 # 1)%Q.
Definition CLEANUP_INTERVAL_MINUTES : Z := 60.

(** ** Stored names (lines 79-87, 155, 192, 225, 249) *)

(** One file part as multer hands it to [storage.filename]: the name the
    client sent, and the clock and random readings taken while naming it. *)
Record part := Part {
  part_now : N;
  part_random : list N;
  part_originalname : string
}.

(** [Date.now().toString(36) + Math.random().toString(36).substring(2, 5)] *)
Definition uniqueID (now : N) (random : list N) : string :=
  JS.toString36 now +:+ JS.substring 2 5 (JS.fraction_toString36 random).

(** [storage.filename] (lines 79-87). *)
Definition storage_filename (now : N) (random : list N) (originalname : string)
  : string :=
  uniqueID now random +:+ "-" +:+ originalname.

(** [name.split("-").slice(1).join("-")] (lines 192, 225, 249). *)
Definition originalName (serverFilename : string) : string :=
  JS.join JS.hyphen (JS.slice1 (JS.split JS.hyphen serverFilename)).

(** [name.split("-")[0]] (line 155). *)
Definition idOf (serverFilename : string) : string :=
  default EmptyString (JS.index0 (JS.split JS.hyphen serverFilename)).

(** [req.files] entries after multer has stored the batch. *)
Record file_info := FileInfo {
  originalname : string;
  filename : string
}.

(** multer's disk storage calls [storage.filename] once per file of the
    batch, in upload order (lines 75-88). *)
Definition storedName (p : part) : string :=
  storage_filename (part_now p) (part_random p) (part_originalname p).

Definition disk_storage (batch : list part) : list file_info :=
  (λ p, FileInfo (part_originalname p) (storedName p)) <$> batch.

(** ** Server state *)

(** A blob of the upload folder; [mtimeMs] is [stats.mtimeMs]. *)
Record file := File { mtimeMs : Q }.

(** What the server prints with [console.log], [console.warn] and
    [console.error]. *)
Inductive log_entry :=
| ErrorSavingMap                                    (* line 59 *)
| ErrorMulter (code : string)                       (* line 109 *)
| ErrorUpload                                       (* line 132 *)
| LogNewGroup (groupID : string) (fileCount : nat)  (* line 162 *)
| WarnFileNotFound (serverFilename : string)        (* line 230 *)
| LogCleanupCheck                                   (* line 269 *)
| ErrorCleanup                                      (* line 273 *)
| LogDeleted (name : string).                       (* line 282 *)

Record server := Server {
  fileGroupMap : gmap string (list string);        (* line 64 *)
  dataFile : option (gmap string (list string));   (* fileGroups.json *)
  uploads : gmap string file;                      (* the upload folder *)
  console : list log_entry
}.

(** Host failures, decided outside the program. *)
Record faults := Faults {
  write_fails : bool;             (* fs.writeFileSync(DATA_FILE, ..) throws *)
  readdir_fails : bool;           (* fs.readdir calls back with an error *)
  stat_fails : string → bool;     (* fs.stat on this blob calls back with an error *)
  unlink_fails : string → bool;   (* fs.unlink on this blob calls back with an error *)
  write_truncates : bool          (* a throwing write had already opened the file *)
}.

Definition no_faults : faults :=
  Faults false false (λ _, false) (λ _, false) false.

Definition print (e : log_entry) (st : server) : server :=
  Server (fileGroupMap st) (dataFile st) (uploads st) (console st ++ [e])%list.

Definition set_fileGroupMap (m : gmap string (list string)) (st : server) : server :=
  Server m (dataFile st) (uploads st) (console st).

Definition set_dataFile (m : gmap string (list string)) (st : server) : server :=
  Server (fileGroupMap st) (Some m) (uploads st) (console st).

Definition set_uploads (u : gmap string file) (st : server) : server :=
  Server (fileGroupMap st) (dataFile st) u (console st).

(** [loadFileGroupMap] (lines 36-48): the parsed document, or [{}] when the
    file is absent ([None]). *)
Definition loadFileGroupMap (doc : option (gmap string (list string)))
  : gmap string (list string) :=
  default ∅ doc.

(** [saveFileGroupMap] (lines 54-61): the write error is caught and
    printed; nothing is rethrown.  [fs.writeFileSync] opens the file for
    writing, which empties it, and then writes: a write that throws after
    the file was opened leaves a file that parses to the empty map, one
    that throws before leaves the file as it was. *)
Definition saveFileGroupMap (flt : faults) (map : gmap string (list string))
    (st : server) : server :=
  if write_fails flt then
    print ErrorSavingMap (if write_truncates flt then set_dataFile ∅ st else st)
  else set_dataFile map st.

(** ** Responses *)

#[warnings="-register-all"] Inductive json :=
| JString (s : string)
| JNumber (n : nat)
| JArray (items : list json)
| JObject (fields : list (string * json))
| JQRCode (text : string).   (* the data URI [QRCode.toDataURL(text)] resolves to *)

(** The name of an archive entry: the name given to [archive.file], or,
    when that name is empty, the path of the blob, which is what the
    archiver falls back to. *)
Inductive archive_name :=
| Named (name : string)
| PathOfBlob.

Definition name_in_archive (name : string) : archive_name :=
  if String.eqb name EmptyString then PathOfBlob else Named name.

(** One [archive.file(filePath, { name })] call: the blob and the entry name. *)
Record archive_entry := ArchiveEntry {
  entry_blob : string;
  entry_name : archive_name
}.

Inductive body :=
| JsonBody (j : json)                         (* res.json(..), res.send(object) *)
| TextBody (text : string)                    (* res.send(string) *)
| DownloadBody (blob suggested : string)      (* res.download(filePath, name) *)
| ZipBody (attachment : string) (entries : list archive_entry).

Record response := Response {
  status : nat;
  payload : body
}.

Definition is_json (r : response) : bool :=
  match payload r with JsonBody _ => true | _ => false end.

Definition error_json (message : string) : body :=
  JsonBody (JObject [("error", JString message)]).

(** [j.name] of a JSON object. *)
Definition field (name : string) (r : response) : option json :=
  match payload r with
  | JsonBody (JObject fields) =>
      snd <$> List.find (λ kv, String.eqb (fst kv) name) fields
  | _ => None
  end.

(** ** POST /upload (lines 102-183) *)

(** How [upload.array("files")] calls back (line 106). *)
Inductive multer_outcome :=
| MulterError (code : string)
| OtherError
| Accepted (batch : list part).

(** The message of lines 110-121. *)
Definition multer_message (code : string) : string :=
  if String.eqb code "LIMIT_FILE_SIZE" then
    "File too large. Maximum size is "
      +:+ pretty (MAX_FILE_SIZE / (1024 * 1024))%N +:+ "MB."
  else if String.eqb code "LIMIT_UNEXPECTED_FILE" || String.eqb code "LIMIT_FILE_COUNT" then
    "Too many files selected. Maximum is " +:+ pretty MAX_FILE_COUNT +:+ "."
  else "A file upload error occurred.".

(** [uploadedFilenames[0].split("-")[0]] (lines 153-155). *)
Definition groupID_of (files : list file_info) : string :=
  idOf (default EmptyString (head (filename <$> files))).

(** The main route logic (lines 142-182). *)
Definition upload_handler (flt : faults) (files : list file_info) (st : server)
  : server * response :=
  match files with
  | [] => (st, Response 400 (error_json "No files uploaded"))
  | _ =>
      let fileCount := length files in
      let '(st', downloadLink) :=
        if (1 <? fileCount)%nat then
          let uploadedFilenames := filename <$> files in
          let groupID := groupID_of files in
          let st1 := set_fileGroupMap (<[groupID := uploadedFilenames]> (fileGroupMap st)) st in
          let st2 := saveFileGroupMap flt (fileGroupMap st1) st1 in
          (print (LogNewGroup groupID fileCount) st2,
           BASE_URL +:+ "/download-group/" +:+ groupID)
        else
          let singleFilename := default EmptyString (head (filename <$> files)) in
          (st, BASE_URL +:+ "/download-file/" +:+ singleFilename)
      in
      (st', Response 200 (JsonBody (JObject [
              ("message", JString "File(s) processed successfully");
              ("file_count", JNumber fileCount);
              ("download_link", JString downloadLink);
              ("qr_code", JQRCode downloadLink);
              ("uploaded_files", JArray (JString ∘ originalname <$> files))])))
  end.

(** multer's disk storage writes each accepted file into the upload folder
    under the name [storage.filename] gave it (lines 75-88), replacing a
    blob already stored under that name. *)
Definition write_blob (folder : gmap string file) (p : part) : gmap string file :=
  <[storedName p := File (inject_Z (Z.of_N (part_now p)))]> folder.

Definition store_blobs (batch : list part) (st : server) : server :=
  set_uploads (foldl write_blob (uploads st) batch) st.

(** The whole route: the multer middleware (lines 104-141), which stores
    the blobs of an accepted batch, then the handler. *)
Definition upload (flt : faults) (o : multer_outcome) (st : server)
  : server * response :=
  match o with
  | MulterError code =>
      (print (ErrorMulter code) st,
       Response 400 (JsonBody (JObject [("error", JString (multer_message code));
                                        ("code", JString code)])))
  | OtherError =>
      (print ErrorUpload st,
       Response 500 (error_json "An unknown server error occurred during upload."))
  | Accepted batch =>
      upload_handler flt (disk_storage batch) (store_blobs batch st)
  end.

(** ** GET /download-file/:filename (lines 188-197) *)

(** Whether [name] names a file of the upload folder and nothing else: it
    has no path separator and is not a dot segment. *)
Fixpoint has_char (c : ascii) (s : string) : bool :=
  match s with
  | EmptyString => false
  | String c' rest => Ascii.eqb c' c || has_char c rest
  end.

Definition plain_name (name : string) : bool :=
  negb (has_char "/" name) && negb (has_char "\" name)
  && negb (String.eqb name "") && negb (String.eqb name ".")
  && negb (String.eqb name "..").

(** [fs.existsSync(path.join(uploadFolder, name))]. *)
Definition existsSync (name : string) (st : server) : bool :=
  bool_decide (is_Some (uploads st !! name)).

Definition download_file (name : string) (st : server) : response :=
  if existsSync name st then Response 200 (DownloadBody name (originalName name))
  else Response 404 (error_json "File not found").

(** ** GET /download-group/:groupId (lines 202-235) *)

(** The test [!files || files.length === 0] of lines 206 and 244, with its
    two disjuncts kept apart. *)
Inductive group_lookup :=
| GroupUnknown               (* [!files] *)
| GroupEmpty                 (* [files.length === 0] *)
| GroupFiles (files : list string).

Definition lookup_group (groupId : string) (st : server) : group_lookup :=
  match fileGroupMap st !! groupId with
  | None => GroupUnknown
  | Some [] => GroupEmpty
  | Some files => GroupFiles files
  end.

(** The body of [filesToZip.forEach] (lines 223-232), threading the
    entries handed to the archive so far. *)
Definition zip_file (acc : server * list archive_entry) (serverFilename : string)
  : server * list archive_entry :=
  let '(st, entries) := acc in
  let originalName := originalName serverFilename in
  if existsSync serverFilename st
  then (st, (entries
             ++ [ArchiveEntry serverFilename (name_in_archive originalName)])%list)
  else (print (WarnFileNotFound serverFilename) st, entries).

Definition download_group (groupId : string) (st : server) : server * response :=
  match lookup_group groupId st with
  | GroupUnknown | GroupEmpty =>
      (st, Response 404 (TextBody "File group not found or empty."))
  | GroupFiles filesToZip =>
      let '(st', entries) := foldl zip_file (st, []) filesToZip in
      (st', Response 200
              (ZipBody ("SwiftShare_Files_" +:+ groupId +:+ ".zip") entries))
  end.

(** ** GET /group-info/:groupId (lines 240-259) *)

Definition group_info (groupId : string) (st : server) : response :=
  match lookup_group groupId st with
  | GroupUnknown | GroupEmpty => Response 404 (error_json "File group not found")
  | GroupFiles filesInGroup =>
      let fileInfo :=
        (λ serverFilename, JObject [("name", JString (originalName serverFilename))])
        <$> filesInGroup in
      Response 200 (JsonBody (JObject [
        ("type", JString "group");
        ("groupId", JString groupId);
        ("files", JArray fileInfo);
        ("download_link", JString (BASE_URL +:+ "/download-group/" +:+ groupId))]))
  end.

(** ** Requests served by one running process *)

Inductive request :=
| PostUpload (flt : faults) (o : multer_outcome)
| GetDownloadFile (name : string)
| GetDownloadGroup (groupId : string)
| GetGroupInfo (groupId : string).

Definition serve (r : request) (st : server) : server * response :=
  match r with
  | PostUpload flt o => upload flt o st
  | GetDownloadFile name => (st, download_file name st)
  | GetDownloadGroup groupId => download_group groupId st
  | GetGroupInfo groupId => (st, group_info groupId st)
  end.

Definition serve_all (rs : list request) (st : server) : server :=
  foldl (λ st r, (serve r st).1) st rs.

(** ** The expiry sweeper (lines 265-291) *)

(** What a top-level identifier of server.js is bound to: a path string, or
    something else (a module, a function, a number, the app). *)
Inductive value :=
| VPath (p : string)
| VOther.

(** [path.join(__dirname, "uploads")] and [path.join(__dirname,
    "fileGroups.json")], relative to [__dirname] (lines 14, 31). *)
Definition uploadFolder : string := "uploads".
Definition DATA_FILE : string := "fileGroups.json".

(** Every binding of the module, in the order of declaration (lines 2-14,
    31, 36, 54, 64, 71-72, 75, 91, 265-268). *)
Definition module_scope : list (string * value) :=
  [("express", VOther); ("multer", VOther); ("cors", VOther); ("QRCode", VOther);
   ("path", VOther); ("fs", VOther); ("archiver", VOther); ("app", VOther);
   ("PORT", VOther); ("BASE_URL", VOther); ("DATA_FILE", VPath DATA_FILE);
   ("uploadFolder", VPath uploadFolder); ("loadFileGroupMap", VOther);
   ("saveFileGroupMap", VOther); ("fileGroupMap", VOther);
   ("MAX_FILE_SIZE", VOther); ("MAX_FILE_COUNT", VOther); ("storage", VOther);
   ("upload", VOther); ("FILE_EXPIRY_HOURS", VOther);
   ("CLEANUP_INTERVAL_MINUTES", VOther); ("cleanupOldFiles", VOther)].

(** The globals of Node that server.js names. *)
Definition node_globals : list (string * value) :=
  [("require", VOther); ("process", VOther); ("__dirname", VOther);
   ("console", VOther); ("Date", VOther); ("Math", VOther); ("JSON", VOther);
   ("setInterval", VOther)].

(** Reading an identifier: the module's bindings, then the globals;
    [None] is an unresolvable reference. *)
Definition resolve (identifier : string) : option value :=
  snd <$> List.find (λ b, String.eqb (fst b) identifier) (module_scope ++ node_globals)%list.

Inductive exception :=
| ReferenceError (identifier : string)   (* "<identifier> is not defined" *)
| TypeError.                             (* fs.readdir on a non-path *)

Inductive completion :=
| Returned
| Threw (e : exception).

(** The blob at [path.join(dir, name)]; the model holds one folder. *)
Definition blob_at (dir name : string) (st : server) : option file :=
  if String.eqb dir uploadFolder then uploads st !! name else None.

(** [fs.readdir(dir, ..)]: [None] is the error argument set.  The names
    come in the order of the map's keys, which stands for whatever order
    the host lists them in. *)
Definition fs_readdir (flt : faults) (dir : string) (st : server)
  : option (list string) :=
  if readdir_fails flt || negb (String.eqb dir uploadFolder) then None
  else Some (elements (dom (uploads st))).

(** [fs.stat(filePath, ..)]: [None] is the error argument set. *)
Definition fs_stat (flt : faults) (dir name : string) (st : server) : option file :=
  if stat_fails flt name then None else blob_at dir name st.

(** [fs.unlink(filePath, ..)]: [None] is the error argument set, else the
    folder without the blob. *)
Definition fs_unlink (flt : faults) (dir name : string) (st : server)
  : option server :=
  if unlink_fails flt name then None
  else match blob_at dir name st with
       | None => None
       | Some _ => Some (set_uploads (delete name (uploads st)) st)
       end.

(** [(now - stats.mtimeMs) / (1000 * 60 * 60)] (line 279). *)
Definition ageHours (now : N) (stats : file) : Q :=
  ((inject_Z (Z.of_N now) - mtimeMs stats) / inject_Z (1000 * 60 * 60))%Q.

(** [ageHours > FILE_EXPIRY_HOURS] (line 280). *)
Definition expired (now : N) (stats : file) : bool :=
  negb (Qle_bool (ageHours now stats) FILE_EXPIRY_HOURS).

(** The callback of [fs.unlink] (lines 281-283). *)
Definition unlink_callback (name : string) (result : option server) (st : server)
  : server :=
  match result with
  | None => st
  | Some st' => print (LogDeleted name) st'
  end.

(** The callback of [fs.stat] (lines 277-285). *)
Definition stat_callback (now : N) (flt : faults) (dir name : string)
    (result : option file) (st : server) : server :=
  match result with
  | None => st
  | Some stats =>
      if expired now stats
      then unlink_callback name (fs_unlink flt dir name st) st
      else st
  end.

(** The body of [files.forEach] (lines 275-286); line 276 reads the
    folder through the identifier [uploadDir]. *)
Definition sweep_file (now : N) (flt : faults) (st : server) (name : string)
  : completion * server :=
  match resolve "uploadDir" with
  | None => (Threw (ReferenceError "uploadDir"), st)
  | Some VOther => (Threw TypeError, st)
  | Some (VPath dir) =>
      (Returned, stat_callback now flt dir name (fs_stat flt dir name st) st)
  end.

(** [files.forEach(body)]: an exception leaving the body ends the loop. *)
Fixpoint forEach (body : server → string → completion * server)
    (files : list string) (st : server) : completion * server :=
  match files with
  | [] => (Returned, st)
  | file :: rest =>
      match body st file with
      | (Returned, st') => forEach body rest st'
      | (Threw e, st') => (Threw e, st')
      end
  end.

(** The callback of [fs.readdir] (lines 272-287). *)
Definition readdir_callback (now : N) (flt : faults)
    (result : option (list string)) (st : server) : completion * server :=
  match result with
  | None => (Returned, print ErrorCleanup st)
  | Some files => forEach (sweep_file now flt) files st
  end.

(** [cleanupOldFiles] (lines 268-288).  Line 272 reads the folder through
    the identifier [uploadDir]. *)
Definition cleanupOldFiles (now : N) (flt : faults) (st : server)
  : completion * server :=
  let st := print LogCleanupCheck st in
  match resolve "uploadDir" with
  | None => (Threw (ReferenceError "uploadDir"), st)
  | Some VOther => (Threw TypeError, st)
  | Some (VPath dir) => readdir_callback now flt (fs_readdir flt dir st) st
  end.

(** The process under [setInterval(cleanupOldFiles, ..)] (line 291): an
    exception leaving a timer callback is uncaught and ends the process; no
    handler for it is installed anywhere in server.js. *)
Inductive process :=
| Running (st : server)
| Exited (e : exception) (st : server).

Definition interval_tick (now : N) (flt : faults) (p : process) : process :=
  match p with
  | Running st =>
      match cleanupOldFiles now flt st with
      | (Returned, st') => Running st'
      | (Threw e, st') => Exited e st'
      end
  | Exited _ _ => p
  end.

(** A process started with no [fileGroups.json] and an empty upload folder. *)
Definition fresh : server := Server (loadFileGroupMap None) None ∅ [].


(** ** Start of the process (line 64) *)

(** The state in which the process begins to serve: the map is loaded from
    the document found on disk, and nothing has been printed by the routes
    yet. *)
Definition start (doc : option (gmap string (list string)))
    (blobs : gmap string file) : server :=
  Server (loadFileGroupMap doc) doc blobs [].

(** The process is stopped and started again on the same disk. *)
Definition restart (st : server) : server := start (dataFile st) (uploads st).

(** The request does not meet a failing write of [fileGroups.json]. *)
Definition saves (r : request) : bool :=
  match r with
  | PostUpload flt _ => negb (write_fails flt)
  | _ => true
  end.

(** The firings of the timer of line 291, each with its clock reading and
    the host failures it meets. *)
Definition run_timer (ticks : list (N * faults)) (p : process) : process :=
  foldl (λ p t, interval_tick t.1 t.2 p) p ticks.

(** The lines printed between two states of the server. *)
Definition printed (st st' : server) : list log_entry :=
  drop (length (console st)) (console st').

(** multer hands on only the parts that carry a file name; a part whose
    file name is empty is skipped and never reaches [req.files]. *)
Definition named (p : part) : bool :=
  negb (String.eqb (part_originalname p) EmptyString).


(** The names reported missing (line 230) among printed lines, in the
    order of the reports. *)
Definition missing_warnings (es : list log_entry) : list string :=
  omap (λ e, match e with WarnFileNotFound n => Some n | _ => None end) es.


(** * Properties *)

(** ** Splitting and joining at hyphens *)

Section Strings.

Lemma split_nonempty sep s : JS.split sep s ≠ [].
Proof.
  destruct s as [|c rest]; simpl; [done|].
  destruct (Ascii.eqb c sep); [done|].
  by destruct (JS.split sep rest).
Qed.

Lemma join_split sep s : JS.join sep (JS.split sep s) = s.
Proof.
  induction s as [|c rest IH]; simpl; [done|].
  destruct (Ascii.eqb_spec c sep) as [->|Hc].
  - pose proof (split_nonempty sep rest) as Hne.
    destruct (JS.split sep rest) as [|piece pieces]; [done|].
    simpl. by rewrite <- IH.
  - pose proof (split_nonempty sep rest) as Hne.
    destruct (JS.split sep rest) as [|piece pieces]; [done|].
    rewrite <- IH. simpl. by destruct pieces.
Qed.

Lemma split_prefix p s :
  JS.hyphen_free p = true →
  JS.split JS.hyphen (p +:+ String JS.hyphen s) = p :: JS.split JS.hyphen s.
Proof.
  induction p as [|c p IH]; simpl; intros Hp.
  - done.
  - apply andb_true_iff in Hp as [Hc Hp].
    apply negb_true_iff in Hc. rewrite Hc, (IH Hp). done.
Qed.

Lemma hyphen_free_app s t :
  JS.hyphen_free (s +:+ t) = JS.hyphen_free s && JS.hyphen_free t.
Proof.
  induction s as [|c s IH]; simpl; [done|]. by rewrite IH, andb_assoc.
Qed.

Lemma all_digit36_app s t :
  JS.all_digit36 (s +:+ t) = JS.all_digit36 s && JS.all_digit36 t.
Proof.
  induction s as [|c s IH]; simpl; [done|]. by rewrite IH, andb_assoc.
Qed.

Lemma all_digit36_hyphen_free s : JS.all_digit36 s = true → JS.hyphen_free s = true.
Proof.
  induction s as [|c s IH]; simpl; [done|].
  intros [Hc Hs]%andb_true_iff. rewrite (IH Hs), andb_true_r.
  apply negb_true_iff, Ascii.eqb_neq. intros ->. by vm_compute in Hc.
Qed.

Lemma digit36_is_digit36 d : JS.is_digit36 (JS.digit36 d) = true.
Proof.
  assert (Hall : forallb (λ r, JS.is_digit36 (JS.digit36 (N.of_nat r))) (seq 0 36) = true)
    by (vm_compute; reflexivity).
  rewrite forallb_forall in Hall.
  assert (Hd : JS.digit36 d = JS.digit36 (N.of_nat (N.to_nat (d mod 36)))).
  { unfold JS.digit36. rewrite N2Nat.id, N.Div0.mod_mod. done. }
  rewrite Hd. apply Hall, in_seq.
  pose proof (N.mod_upper_bound d 36 ltac:(done)) as Hlt.
  clear Hd Hall. revert Hlt. generalize (d mod 36)%N. intros r Hr. lia.
Qed.

Lemma toString36_digits_all fuel n acc :
  JS.all_digit36 acc = true → JS.all_digit36 (JS.toString36_digits fuel n acc) = true.
Proof.
  revert n acc. induction fuel as [|fuel IH]; intros n acc Hacc; simpl.
  - by rewrite digit36_is_digit36.
  - destruct (n / 36 =? 0)%N.
    + simpl. by rewrite digit36_is_digit36.
    + apply IH. simpl. by rewrite digit36_is_digit36.
Qed.

Lemma toString36_all n : JS.all_digit36 (JS.toString36 n) = true.
Proof. by apply toString36_digits_all. Qed.

Lemma string_of_digits_all ds :
  JS.all_digit36 (String.string_of_list_ascii (JS.digit36 <$> ds)) = true.
Proof.
  induction ds as [|d ds IH]; simpl; [done|]. by rewrite digit36_is_digit36.
Qed.

Lemma substring_all from len s :
  JS.all_digit36 s = true → JS.all_digit36 (String.substring from len s) = true.
Proof.
  revert from len. induction s as [|c s IH]; intros from len Hs.
  - by destruct from, len.
  - simpl in Hs. apply andb_true_iff in Hs as [Hc Hs].
    destruct from as [|from]; destruct len as [|len]; simpl; auto.
    rewrite Hc. simpl. auto.
Qed.

Lemma salt_all random :
  JS.all_digit36 (JS.substring 2 5 (JS.fraction_toString36 random)) = true.
Proof.
  destruct random as [|d ds]; [done|].
  unfold JS.substring, JS.fraction_toString36.
  change ("0." +:+ ?s) with (String "0" (String "." s)).
  change (String.substring 2 (5 - 2) (String "0" (String "." ?s)))
    with (String.substring 0 3 s).
  apply substring_all, string_of_digits_all.
Qed.

Lemma uniqueID_all now random : JS.all_digit36 (uniqueID now random) = true.
Proof.
  unfold uniqueID. by rewrite all_digit36_app, toString36_all, salt_all.
Qed.

Lemma uniqueID_hyphen_free now random : JS.hyphen_free (uniqueID now random) = true.
Proof. apply all_digit36_hyphen_free, uniqueID_all. Qed.

Lemma split_storage_filename now random F :
  JS.split JS.hyphen (storage_filename now random F)
  = uniqueID now random :: JS.split JS.hyphen F.
Proof. apply split_prefix, uniqueID_hyphen_free. Qed.

Lemma idOf_storage_filename now random F :
  idOf (storage_filename now random F) = uniqueID now random.
Proof. unfold idOf. by rewrite split_storage_filename. Qed.

Lemma originalName_storage_filename now random F :
  originalName (storage_filename now random F) = F.
Proof.
  unfold originalName. rewrite split_storage_filename. simpl.
  unfold JS.slice1. simpl. apply join_split.
Qed.

End Strings.

(** ** [toString(36)] writes the number it is given *)

Section Radix36.

Lemma digit_value_digit36 d : JS.digit_value (JS.digit36 d) = (d mod 36)%N.
Proof.
  assert (Hall : forallb (λ r, N.eqb (JS.digit_value (JS.digit36 (N.of_nat r)))
                                 (N.of_nat r)) (seq 0 36) = true)
    by (vm_compute; reflexivity).
  rewrite forallb_forall in Hall.
  assert (Hd : JS.digit36 d = JS.digit36 (N.of_nat (N.to_nat (d mod 36)))).
  { unfold JS.digit36. rewrite N2Nat.id, N.Div0.mod_mod. done. }
  rewrite Hd. rewrite <- (N2Nat.id (d mod 36)) at 2.
  apply N.eqb_eq, Hall, in_seq.
  pose proof (N.mod_upper_bound d 36 ltac:(done)) as Hlt.
  clear Hd Hall. revert Hlt. generalize (d mod 36)%N. intros r Hr. lia.
Qed.

Lemma string_app_assoc (s t u : string) : (s +:+ t) +:+ u = s +:+ (t +:+ u).
Proof.
  induction s as [|c s IH]; [done|].
  change (String c ((s +:+ t) +:+ u) = String c (s +:+ (t +:+ u))).
  by rewrite IH.
Qed.

Lemma toString36_digits_acc fuel : ∀ n acc,
  JS.toString36_digits fuel n acc
  = JS.toString36_digits fuel n EmptyString +:+ acc.
Proof.
  induction fuel as [|fuel IH]; intros n acc; simpl; [done|].
  destruct (n / 36 =? 0)%N; [done|].
  rewrite (IH _ (String _ acc)), (IH _ (String _ EmptyString)).
  by rewrite string_app_assoc.
Qed.

Lemma parseInt36_from_app v s t :
  JS.parseInt36_from v (s +:+ t) = JS.parseInt36_from (JS.parseInt36_from v s) t.
Proof. revert v. induction s as [|c s IH]; intros v; simpl; [done|]. apply IH. Qed.

Lemma parseInt36_toString36_digits fuel : ∀ n,
  (n < 36 ^ N.of_nat (S fuel))%N →
  JS.parseInt36 (JS.toString36_digits fuel n EmptyString) = n.
Proof.
  unfold JS.parseInt36.
  induction fuel as [|fuel IH]; intros n Hn.
  - simpl. rewrite digit_value_digit36. apply N.mod_small.
    by change (36 ^ N.of_nat 1)%N with 36%N in Hn.
  - simpl. destruct (N.eqb_spec (n / 36) 0) as [Hq|Hq].
    + simpl. rewrite digit_value_digit36. apply N.mod_small.
      apply N.div_small_iff in Hq; [done | lia].
    + rewrite toString36_digits_acc, parseInt36_from_app, IH.
      * simpl. rewrite digit_value_digit36.
        pose proof (N.div_mod n 36 ltac:(done)). lia.
      * apply N.Div0.div_lt_upper_bound.
        rewrite Nat2N.inj_succ, N.pow_succ_r' in Hn. done.
Qed.

Lemma size_nat_bound n : (n < 2 ^ N.of_nat (N.size_nat n))%N.
Proof.
  destruct n as [|p]; [done|]. simpl.
  induction p as [p IH|p IH|]; simpl Pos.size_nat.
  - rewrite Nat2N.inj_succ, N.pow_succ_r'. lia.
  - rewrite Nat2N.inj_succ, N.pow_succ_r'. lia.
  - done.
Qed.

(** Reading back what [toString(36)] wrote gives the number: the fuel of
    [toString36] never runs out. *)
Lemma parseInt36_toString36 n : JS.parseInt36 (JS.toString36 n) = n.
Proof.
  apply parseInt36_toString36_digits.
  eapply N.lt_le_trans; [apply size_nat_bound|].
  etrans; [apply (N.pow_le_mono_l 2 36); lia|].
  apply N.pow_le_mono_r; lia.
Qed.

Lemma toString36_inj n1 n2 : JS.toString36 n1 = JS.toString36 n2 → n1 = n2.
Proof.
  intros H. by rewrite <- (parseInt36_toString36 n1), H, parseInt36_toString36.
Qed.

End Radix36.

(** ** The definitions on concrete inputs *)

Example toString36_now : JS.toString36 1700000000000 = "loyw3v28".
Proof. reflexivity. Qed.

Example toString36_small :
  JS.toString36 0 = "0" ∧ JS.toString36 35 = "z" ∧ JS.toString36 36 = "10".
Proof. repeat split. Qed.

Example salt_of_zero : uniqueID 36 [] = "10".
Proof. reflexivity. Qed.

Example storage_filename_hyphens :
  storage_filename 1700000000000 [18; 7; 33; 2; 9]%N "my-report.pdf"
  = "loyw3v28i7x-my-report.pdf".
Proof. reflexivity. Qed.

Example originalName_hyphens :
  originalName "loyw3v28i7x-my-report.pdf" = "my-report.pdf".
Proof. reflexivity. Qed.

Example idOf_stored : idOf "loyw3v28i7x-my-report.pdf" = "loyw3v28i7x".
Proof. reflexivity. Qed.

Example split_edges :
  JS.split JS.hyphen "" = [""]
  ∧ JS.split JS.hyphen "-a--b-" = [""; "a"; ""; "b"; ""].
Proof. split; reflexivity. Qed.

Example multer_messages :
  multer_message "LIMIT_FILE_SIZE" = "File too large. Maximum size is 50MB."
  ∧ multer_message "LIMIT_FILE_COUNT" = "Too many files selected. Maximum is 4."
  ∧ multer_message "LIMIT_PART_COUNT" = "A file upload error occurred.".
Proof. repeat split. Qed.

Example no_files_is_400 :
  (upload no_faults (Accepted []) fresh).2
  = Response 400 (JsonBody (JObject [("error", JString "No files uploaded")])).
Proof. reflexivity. Qed.

Example group_info_of_upload :
  let batch := [Part 1700000000000 [1; 2; 3]%N "a.txt";
                Part 1700000000001 [4; 5; 6]%N "b-c.txt"] in
  group_info "loyw3v28123" (upload no_faults (Accepted batch) fresh).1
  = Response 200 (JsonBody (JObject [
      ("type", JString "group");
      ("groupId", JString "loyw3v28123");
      ("files", JArray [JObject [("name", JString "a.txt")];
                        JObject [("name", JString "b-c.txt")]]);
      ("download_link",
       JString "https://swiftshare-backend-jxag.onrender.com/download-group/loyw3v28123")])).
Proof. vm_compute. reflexivity. Qed.

Example age_of_exactly_24h_stays :
  expired (24 * 60 * 60 * 1000) (File 0) = false
  ∧ expired (24 * 60 * 60 * 1000 + 1) (File 0) = true.
Proof. split; reflexivity. Qed.

(** ** Stored names of a batch *)

Section Naming.

Lemma string_length_app s t :
  String.length (s +:+ t) = (String.length s + String.length t)%nat.
Proof. induction s as [|c s IH]; simpl; [done|]. by rewrite IH. Qed.

Lemma append_inv_tail s1 s2 t : s1 +:+ t = s2 +:+ t → s1 = s2.
Proof.
  revert s2. induction s1 as [|c s1 IH]; intros [|d s2] H.
  - done.
  - apply (f_equal String.length) in H.
    rewrite !string_length_app in H. simpl in H. lia.
  - apply (f_equal String.length) in H.
    rewrite !string_length_app in H. simpl in H. lia.
  - injection H as -> H. f_equal. by apply IH.
Qed.

Lemma filename_disk_storage batch :
  filename <$> disk_storage batch = storedName <$> batch.
Proof. unfold disk_storage. rewrite <- list_fmap_compose. done. Qed.

Lemma originalname_disk_storage batch :
  originalname <$> disk_storage batch = part_originalname <$> batch.
Proof. unfold disk_storage. rewrite <- list_fmap_compose. done. Qed.

Lemma length_disk_storage batch : length (disk_storage batch) = length batch.
Proof. unfold disk_storage. apply length_fmap. Qed.

Lemma groupID_of_cons p rest :
  groupID_of (disk_storage (p :: rest)) = uniqueID (part_now p) (part_random p).
Proof. unfold groupID_of. simpl. apply idOf_storage_filename. Qed.

Lemma storage_filename_inj now1 random1 F1 now2 random2 F2 :
  storage_filename now1 random1 F1 = storage_filename now2 random2 F2 →
  uniqueID now1 random1 = uniqueID now2 random2 ∧ F1 = F2.
Proof.
  intros H. split.
  - rewrite <- (idOf_storage_filename now1 random1 F1),
            <- (idOf_storage_filename now2 random2 F2). by rewrite H.
  - rewrite <- (originalName_storage_filename now1 random1 F1),
            <- (originalName_storage_filename now2 random2 F2). by rewrite H.
Qed.

End Naming.

(** C4. For every original filename [F], whatever the clock and the random
    draw, stripping the unique prefix from the stored name generated for
    [F] gives back exactly [F]; hyphens in [F] are kept. *)
Theorem originalName_roundtrip (now : N) (random : list N) (F : string) :
  originalName (storage_filename now random F) = F.
Proof. apply originalName_storage_filename. Qed.

(** C3, as stated, fails: two files of one batch, named in the same
    millisecond with different random draws, have no common prefix. *)
Lemma batch_prefix_not_shared :
  let batch := [Part 1700000000000 [1; 2; 3]%N "a.txt";
                Part 1700000000000 [4; 5; 6]%N "b.txt"] in
  ¬ ∃ uniquePrefix : string,
      ∀ f, f ∈ disk_storage batch →
           filename f = uniquePrefix +:+ "-" +:+ originalname f.
Proof.
  intros batch [pre H].
  assert (H1 : pre +:+ "-a.txt" = "loyw3v28123" +:+ "-a.txt").
  { symmetry. apply (H (FileInfo "a.txt" "loyw3v28123-a.txt")).
    vm_compute. apply list_elem_of_here. }
  assert (H2 : pre +:+ "-b.txt" = "loyw3v28456" +:+ "-b.txt").
  { symmetry. apply (H (FileInfo "b.txt" "loyw3v28456-b.txt")).
    vm_compute. apply list_elem_of_further, list_elem_of_here. }
  apply append_inv_tail in H1, H2. congruence.
Qed.

(** C3, amended. Every file of a batch is stored as
    [<uniqueID>-<originalName>], where the hyphen-free [uniqueID] is drawn
    for that file from its own clock and random readings; the group
    identifier derived from a batch is the [uniqueID] of its first file. *)
Theorem batch_naming (batch : list part) :
  Forall2 (λ p f,
             originalname f = part_originalname p
             ∧ filename f
               = uniqueID (part_now p) (part_random p) +:+ "-" +:+ originalname f
             ∧ JS.hyphen_free (uniqueID (part_now p) (part_random p)) = true
             ∧ idOf (filename f) = uniqueID (part_now p) (part_random p))
          batch (disk_storage batch)
  ∧ ∀ p rest, batch = p :: rest →
      groupID_of (disk_storage batch) = uniqueID (part_now p) (part_random p).
Proof.
  split.
  - induction batch as [|p batch IH]; constructor; [|exact IH].
    simpl. repeat split.
    + apply uniqueID_hyphen_free.
    + apply idOf_storage_filename.
  - intros p rest ->. apply groupID_of_cons.
Qed.

(** C9, as stated, fails: two different random draws that agree on their
    first three base-36 digits, in the same millisecond, name two files
    alike. *)
Lemma storedName_collision :
  let first := Part 1700000000000 [1; 2; 3; 4; 5]%N "a.txt" in
  let second := Part 1700000000000 [1; 2; 3; 9; 9]%N "a.txt" in
  first ≠ second ∧ storedName first = storedName second.
Proof. split; [discriminate | reflexivity]. Qed.

(** C9, amended. Two files receive the same stored name exactly when
    their unique identifiers and their original names both coincide. *)
Theorem storedName_eq_iff (now1 now2 : N) (random1 random2 : list N)
    (F1 F2 : string) :
  storage_filename now1 random1 F1 = storage_filename now2 random2 F2
  ↔ uniqueID now1 random1 = uniqueID now2 random2 ∧ F1 = F2.
Proof.
  split.
  - apply storage_filename_inj.
  - intros [Hid ->]. unfold storage_filename. by rewrite Hid.
Qed.

(** ** The upload route *)

Section Upload.

Lemma fileGroupMap_print e st : fileGroupMap (print e st) = fileGroupMap st.
Proof. done. Qed.

Lemma fileGroupMap_save flt m st :
  fileGroupMap (saveFileGroupMap flt m st) = fileGroupMap st.
Proof.
  unfold saveFileGroupMap.
  by destruct (write_fails flt), (write_truncates flt).
Qed.

Lemma upload_accepted flt batch st :
  upload flt (Accepted batch) st
  = upload_handler flt (disk_storage batch) (store_blobs batch st).
Proof. done. Qed.

Lemma upload_small_batch_stores flt batch st :
  (length batch ≤ 1)%nat →
  (upload flt (Accepted batch) st).1 = store_blobs batch st.
Proof. destruct batch as [|p [|q batch]]; simpl; [done | done | lia]. Qed.

Lemma upload_handler_single flt f st :
  upload_handler flt [f] st
  = (st, Response 200 (JsonBody (JObject [
           ("message", JString "File(s) processed successfully");
           ("file_count", JNumber 1);
           ("download_link", JString (BASE_URL +:+ "/download-file/" +:+ filename f));
           ("qr_code", JQRCode (BASE_URL +:+ "/download-file/" +:+ filename f));
           ("uploaded_files", JArray [JString (originalname f)])]))).
Proof. done. Qed.

Lemma upload_handler_group flt files st :
  (1 < length files)%nat →
  upload_handler flt files st
  = (print (LogNewGroup (groupID_of files) (length files))
       (saveFileGroupMap flt
          (<[groupID_of files := filename <$> files]> (fileGroupMap st))
          (set_fileGroupMap
             (<[groupID_of files := filename <$> files]> (fileGroupMap st)) st)),
     Response 200 (JsonBody (JObject [
           ("message", JString "File(s) processed successfully");
           ("file_count", JNumber (length files));
           ("download_link",
            JString (BASE_URL +:+ "/download-group/" +:+ groupID_of files));
           ("qr_code",
            JQRCode (BASE_URL +:+ "/download-group/" +:+ groupID_of files));
           ("uploaded_files", JArray (JString ∘ originalname <$> files))]))).
Proof.
  destruct files as [|f1 [|f2 files]]; simpl; [lia | lia | done].
Qed.

Lemma upload_group_map flt batch st :
  (1 < length batch)%nat →
  fileGroupMap (upload flt (Accepted batch) st).1
  = <[groupID_of (disk_storage batch) := storedName <$> batch]> (fileGroupMap st).
Proof.
  intros Hlen. rewrite upload_accepted, upload_handler_group
    by (by rewrite length_disk_storage).
  simpl. by rewrite fileGroupMap_save, filename_disk_storage.
Qed.

(** An upload changes the map at most at one key, and only to the stored
    names of a batch of two or more. *)
Lemma upload_writes flt o st g l :
  fileGroupMap (upload flt o st).1 !! g = Some l →
  fileGroupMap st !! g = Some l
  ∨ ∃ batch, o = Accepted batch ∧ g = groupID_of (disk_storage batch)
             ∧ l = storedName <$> batch ∧ (2 ≤ length batch)%nat.
Proof.
  destruct o as [code| |batch]; [by left | by left |].
  destruct (decide (1 < length batch)) as [Hlen|Hlen].
  - rewrite (upload_group_map flt batch st Hlen). intros Hl.
    destruct (decide (groupID_of (disk_storage batch) = g)) as [<-|Hne].
    + rewrite lookup_insert_eq in Hl. right. exists batch. naive_solver.
    + rewrite lookup_insert_ne in Hl by done. by left.
  - rewrite upload_small_batch_stores by lia. by left.
Qed.

Lemma zip_fold files : ∀ st acc,
  (foldl zip_file (st, acc) files).2
  = (acc ++ ((λ n, ArchiveEntry n (name_in_archive (originalName n)))
             <$> filter (λ n, existsSync n st = true) files))%list
  ∧ fileGroupMap (foldl zip_file (st, acc) files).1 = fileGroupMap st
  ∧ dataFile (foldl zip_file (st, acc) files).1 = dataFile st
  ∧ uploads (foldl zip_file (st, acc) files).1 = uploads st
  ∧ console (foldl zip_file (st, acc) files).1
    = (console st ++ (WarnFileNotFound
                      <$> filter (λ n, existsSync n st = false) files))%list.
Proof.
  induction files as [|n files IH]; intros st acc.
  - simpl. by rewrite !app_nil_r.
  - change (foldl zip_file (st, acc) (n :: files))
      with (foldl zip_file (zip_file (st, acc) n) files).
    rewrite !filter_cons.
    assert (Hstep : zip_file (st, acc) n
                    = if existsSync n st
                      then (st, (acc ++ [ArchiveEntry n (name_in_archive (originalName n))])%list)
                      else (print (WarnFileNotFound n) st, acc)) by done.
    rewrite Hstep. clear Hstep.
    destruct (existsSync n st) eqn:Hex.
    + destruct (IH st (acc ++ [ArchiveEntry n (name_in_archive (originalName n))])%list)
        as (-> & -> & -> & -> & ->).
      rewrite decide_True by done. rewrite decide_False by done.
      simpl. by rewrite <- app_assoc.
    + destruct (IH (print (WarnFileNotFound n) st) acc)
        as (-> & -> & -> & -> & ->).
      rewrite decide_False by done. rewrite decide_True by done.
      simpl. rewrite <- app_assoc. done.
Qed.

Lemma fileGroupMap_serve_other r st g :
  (∀ flt o, r ≠ PostUpload flt o) →
  fileGroupMap (serve r st).1 !! g = fileGroupMap st !! g.
Proof.
  intros Hr. destruct r as [flt o|name|groupId|groupId]; simpl; try done.
  - by destruct (Hr flt o).
  - unfold download_group. destruct (lookup_group groupId st); try done.
    pose proof (zip_fold files st []) as (_ & Hmap & _).
    destruct (foldl zip_file (st, []) files) as [st' entries]. simpl in *.
    by rewrite Hmap.
Qed.

(** Once a key holds two or more stored names, every later request leaves
    it holding two or more. *)
Lemma group_stays rs : ∀ st g,
  (∃ l, fileGroupMap st !! g = Some l ∧ (2 ≤ length l)%nat) →
  ∃ l, fileGroupMap (serve_all rs st) !! g = Some l ∧ (2 ≤ length l)%nat.
Proof.
  induction rs as [|r rs IH]; intros st g Hg; [done|].
  unfold serve_all. simpl. apply IH.
  destruct r as [flt o|name|groupId|groupId];
    try (rewrite fileGroupMap_serve_other; [done | by intros ? ?]).
  destruct o as [code| |batch]; [done | done |].
  destruct (decide (1 < length batch)) as [Hlen|Hlen].
  - unfold serve. rewrite upload_group_map by done.
    destruct (decide (groupID_of (disk_storage batch) = g)) as [<-|Hne].
    + rewrite lookup_insert_eq. eexists. split; [done|].
      rewrite length_fmap. lia.
    + by rewrite lookup_insert_ne.
  - unfold serve. rewrite upload_small_batch_stores by lia. done.
Qed.

Lemma lookup_group_files st g l :
  fileGroupMap st !! g = Some l → l ≠ [] → lookup_group g st = GroupFiles l.
Proof. unfold lookup_group. intros ->. by destruct l. Qed.

End Upload.

Lemma stores_of_store_blobs batch st :
  fileGroupMap (store_blobs batch st) = fileGroupMap st
  ∧ dataFile (store_blobs batch st) = dataFile st
  ∧ console (store_blobs batch st) = console st.
Proof. done. Qed.

Lemma write_blob_keeps folder batch name :
  is_Some (folder !! name) → is_Some (foldl write_blob folder batch !! name).
Proof.
  revert folder. induction batch as [|p batch IH]; intros folder Hname; [done|].
  apply IH. unfold write_blob.
  destruct (decide (storedName p = name)) as [<-|Hne].
  - rewrite lookup_insert_eq. by eexists.
  - by rewrite lookup_insert_ne.
Qed.

Lemma write_blob_stored folder batch p :
  p ∈ batch → is_Some (foldl write_blob folder batch !! storedName p).
Proof.
  revert folder. induction batch as [|q batch IH]; intros folder Hp.
  - by apply elem_of_nil in Hp.
  - apply elem_of_cons in Hp as [<-|Hp].
    + change (foldl write_blob folder (p :: batch))
        with (foldl write_blob (write_blob folder p) batch).
      apply write_blob_keeps. unfold write_blob.
      rewrite lookup_insert_eq. by eexists.
    + by apply IH.
Qed.

Lemma uploads_upload flt batch st :
  uploads (upload flt (Accepted batch) st).1
  = foldl write_blob (uploads st) batch.
Proof.
  destruct (decide (1 < length batch)%nat) as [Hlen|Hlen].
  - rewrite upload_accepted, upload_handler_group
      by (by rewrite length_disk_storage).
    unfold saveFileGroupMap.
    by destruct (write_fails flt), (write_truncates flt).
  - by rewrite upload_small_batch_stores by lia.
Qed.

(** C5, as stated, fails: with the write of [fileGroups.json] failing, a
    two-file upload is answered with a group link, yet the document on disk
    holds no entry for the group and a process started again does not know
    the group. *)
Lemma group_upload_not_persisted :
  let flt := Faults true false (λ _, false) (λ _, false) false in
  let batch := [Part 1700000000000 [1; 2; 3]%N "a.txt";
                Part 1700000000001 [4; 5; 6]%N "b.txt"] in
  field "download_link" (upload flt (Accepted batch) fresh).2
  = Some (JString (BASE_URL +:+ "/download-group/loyw3v28123"))
  ∧ loadFileGroupMap (dataFile (upload flt (Accepted batch) fresh).1)
      !! "loyw3v28123" = None
  ∧ lookup_group "loyw3v28123" (restart (upload flt (Accepted batch) fresh).1)
    = GroupUnknown.
Proof. vm_compute. repeat split. Qed.

(** C5, amended. A batch of exactly one file leaves the retention store (the
    map in memory and the document on disk) as it was, stores the blob
    under its stored name and answers with the direct link of that stored
    name; a batch of two to four files puts the batch's stored names, in
    upload order, under the derived group identifier in the map in memory,
    leaving every other identifier alone, and answers with the group link;
    the document on disk is the map with that entry whenever its write
    succeeds. *)
Theorem upload_routing (flt : faults) (st : server) (batch : list part) :
  (∀ p, batch = [p] →
     fileGroupMap (upload flt (Accepted batch) st).1 = fileGroupMap st
     ∧ dataFile (upload flt (Accepted batch) st).1 = dataFile st
     ∧ is_Some (uploads (upload flt (Accepted batch) st).1 !! storedName p)
     ∧ status (upload flt (Accepted batch) st).2 = 200
     ∧ field "download_link" (upload flt (Accepted batch) st).2
       = Some (JString (BASE_URL +:+ "/download-file/" +:+ storedName p)))
  ∧ ((2 ≤ length batch ≤ 4)%nat →
     fileGroupMap (upload flt (Accepted batch) st).1
     = <[groupID_of (disk_storage batch) := storedName <$> batch]>
         (fileGroupMap st)
     ∧ (write_fails flt = false →
        dataFile (upload flt (Accepted batch) st).1
        = Some (<[groupID_of (disk_storage batch) := storedName <$> batch]>
                  (fileGroupMap st)))
     ∧ status (upload flt (Accepted batch) st).2 = 200
     ∧ field "download_link" (upload flt (Accepted batch) st).2
       = Some (JString (BASE_URL +:+ "/download-group/"
                          +:+ groupID_of (disk_storage batch)))).
Proof.
  split.
  - intros p ->. rewrite upload_accepted.
    change (disk_storage [p])
      with [FileInfo (part_originalname p) (storedName p)].
    rewrite upload_handler_single. simpl.
    repeat split. unfold write_blob. rewrite lookup_insert_eq. by eexists.
  - intros [Hlo Hhi].
    assert (Hlen : (1 < length batch)%nat) by lia.
    split; [by apply upload_group_map|].
    rewrite upload_accepted, upload_handler_group
      by (by rewrite length_disk_storage).
    simpl. rewrite filename_disk_storage. split; [|done].
    intros Hw. unfold saveFileGroupMap. by rewrite Hw.
Qed.

Lemma upload_routing_witness :
  let p := Part 1700000000000 [1; 2; 3]%N "a.txt" in
  let q := Part 1700000000001 [4; 5; 6]%N "b-c.txt" in
  fileGroupMap (upload no_faults (Accepted [p]) fresh).1 = ∅
  ∧ dataFile (upload no_faults (Accepted [p; q]) fresh).1
    = Some {["loyw3v28123" := ["loyw3v28123-a.txt"; "loyw3v29456-b-c.txt"]]}.
Proof.
  intros p q. split.
  - apply (proj1 (upload_routing no_faults fresh [p]) p eq_refl).
  - destruct (proj2 (upload_routing no_faults fresh [p; q])
                ltac:(simpl; lia)) as (_ & Hdoc & _).
    rewrite (Hdoc eq_refl). reflexivity.
Defined.

(** C8, as stated, fails: with the write of [fileGroups.json] failing, a
    two-file upload is still answered 200. *)
Lemma save_failure_answers_200 :
  let flt := Faults true false (λ _, false) (λ _, false) false in
  let batch := [Part 1700000000000 [1; 2; 3]%N "a.txt";
                Part 1700000000001 [4; 5; 6]%N "b.txt"] in
  write_fails flt = true
  ∧ status (upload flt (Accepted batch) fresh).2 = 200
  ∧ ¬ (500 ≤ status (upload flt (Accepted batch) fresh).2)%nat.
Proof. vm_compute. repeat split. lia. Qed.

(** C8, amended. When persisting the map fails during a group-creating
    upload, the failure is caught and printed on the server and nothing
    else comes of it: the map in memory holds the new group and the client
    receives the ordinary 200 answer with the group link. *)
Theorem save_failure_is_swallowed (flt : faults) (st : server) (batch : list part) :
  write_fails flt = true →
  (2 ≤ length batch)%nat →
  status (upload flt (Accepted batch) st).2 = 200
  ∧ field "download_link" (upload flt (Accepted batch) st).2
    = Some (JString (BASE_URL +:+ "/download-group/"
                       +:+ groupID_of (disk_storage batch)))
  ∧ fileGroupMap (upload flt (Accepted batch) st).1
      !! groupID_of (disk_storage batch)
    = Some (storedName <$> batch)
  ∧ console (upload flt (Accepted batch) st).1
    = (console st ++ [ErrorSavingMap;
                      LogNewGroup (groupID_of (disk_storage batch)) (length batch)])%list.
Proof.
  intros Hw Hlen.
  assert (Hmap : fileGroupMap (upload flt (Accepted batch) st).1
                   !! groupID_of (disk_storage batch)
                 = Some (storedName <$> batch)).
  { rewrite upload_group_map by lia. apply lookup_insert_eq. }
  split; [|split; [|split; [exact Hmap|]]]; clear Hmap;
    rewrite upload_accepted;
    rewrite upload_handler_group by (rewrite length_disk_storage; lia);
    try done.
  unfold saveFileGroupMap. rewrite Hw, length_disk_storage.
  destruct (write_truncates flt); simpl; by rewrite <- app_assoc.
Qed.

Lemma save_failure_is_swallowed_witness :
  let flt := Faults true false (λ _, false) (λ _, false) true in
  let batch := [Part 1700000000000 [1; 2; 3]%N "a.txt";
                Part 1700000000001 [4; 5; 6]%N "b.txt"] in
  status (upload flt (Accepted batch) fresh).2 = 200
  ∧ fileGroupMap (upload flt (Accepted batch) fresh).1 !! "loyw3v28123"
    = Some ["loyw3v28123-a.txt"; "loyw3v29456-b.txt"].
Proof.
  intros flt batch.
  destruct (save_failure_is_swallowed flt fresh batch eq_refl ltac:(simpl; lia))
    as (H1 & _ & H3 & _).
  split; [exact H1 | exact H3].
Defined.

(** C10. Whatever an upload writes into the retention store is the complete
    list of the batch's stored names, of length at least two; and after an
    upload has created a group, through every later sequence of requests
    the lookup of that group finds a list of two or more names, so neither
    the group download nor the group info takes its not-found branch. *)
Theorem uploaded_groups_never_empty (flt : faults) (st : server)
    (batch : list part) :
  (∀ g l,
     fileGroupMap (upload flt (Accepted batch) st).1 !! g = Some l →
     fileGroupMap st !! g = Some l
     ∨ (g = groupID_of (disk_storage batch) ∧ l = storedName <$> batch
        ∧ length l = length batch ∧ (2 ≤ length l)%nat))
  ∧ ((1 < length batch)%nat →
     ∀ rs : list request,
       let g := groupID_of (disk_storage batch) in
       let st' := serve_all rs (upload flt (Accepted batch) st).1 in
       (∃ l, lookup_group g st' = GroupFiles l ∧ (2 ≤ length l)%nat)
       ∧ lookup_group g st' ≠ GroupEmpty
       ∧ status (download_group g st').2 = 200
       ∧ status (group_info g st') = 200).
Proof.
  split.
  - intros g l Hl. apply upload_writes in Hl as [Hl | (b & Hb & -> & -> & Hlen)].
    + by left.
    + right. injection Hb as <-. rewrite length_fmap. done.
  - intros Hlen rs g st'.
    assert (Hg : ∃ l, fileGroupMap st' !! g = Some l ∧ (2 ≤ length l)%nat).
    { apply group_stays. exists (storedName <$> batch). split.
      - rewrite upload_group_map by done. apply lookup_insert_eq.
      - rewrite length_fmap. lia. }
    destruct Hg as (l & Hl & Hlen').
    assert (Hne : l ≠ []) by (intros ->; simpl in Hlen'; lia).
    pose proof (lookup_group_files st' g l Hl Hne) as Hfound.
    split; [by exists l|]. split; [by rewrite Hfound|].
    unfold download_group, group_info. rewrite Hfound.
    split; [|done]. by destruct (foldl zip_file (st', []) l).
Qed.

Lemma uploaded_groups_never_empty_witness :
  let batch := [Part 1700000000000 [1; 2; 3]%N "a.txt";
                Part 1700000000001 [4; 5; 6]%N "b.txt"] in
  let later := [GetDownloadGroup "loyw3v28123";
                PostUpload no_faults (Accepted batch);
                GetGroupInfo "nosuchgroup"] in
  lookup_group "loyw3v28123"
    (serve_all later (upload no_faults (Accepted batch) fresh).1) ≠ GroupEmpty.
Proof.
  intros batch later.
  apply (proj2 (uploaded_groups_never_empty no_faults fresh batch)
           ltac:(simpl; lia) later).
Defined.

(** ** The download routes *)

Section Downloads.

Lemma filter_all {A} (P : A → Prop) `{∀ x, Decision (P x)} (l : list A) :
  (∀ x, x ∈ l → P x) → filter P l = l.
Proof.
  induction l as [|x l IH]; intros Hall; [done|].
  rewrite filter_cons, decide_True by (apply Hall, list_elem_of_here).
  rewrite IH; [done|]. intros y Hy. by apply Hall, list_elem_of_further.
Qed.

Lemma filter_none {A} (P : A → Prop) `{∀ x, Decision (P x)} (l : list A) :
  (∀ x, x ∈ l → ¬ P x) → filter P l = [].
Proof.
  induction l as [|x l IH]; intros Hall; [done|].
  rewrite filter_cons, decide_False by (apply Hall, list_elem_of_here).
  apply IH. intros y Hy. by apply Hall, list_elem_of_further.
Qed.


Lemma printed_app st st' es :
  console st' = (console st ++ es)%list → printed st st' = es.
Proof. unfold printed. intros ->. by rewrite drop_app_length. Qed.

(** The group download, once the group is found, in terms of the list. *)
Lemma download_group_found st groupId files :
  fileGroupMap st !! groupId = Some files →
  files ≠ [] →
  (download_group groupId st).2
  = Response 200
      (ZipBody ("SwiftShare_Files_" +:+ groupId +:+ ".zip")
         ((λ n, ArchiveEntry n (name_in_archive (originalName n)))
          <$> filter (λ n, existsSync n st = true) files))
  ∧ printed st (download_group groupId st).1
    = WarnFileNotFound <$> filter (λ n, existsSync n st = false) files.
Proof.
  intros Hfiles Hne. unfold download_group.
  rewrite (lookup_group_files st groupId files Hfiles Hne).
  destruct (zip_fold files st []) as (Hentries & _ & _ & _ & Hlog).
  destruct (foldl zip_file (st, []) files) as [st' entries]. simpl in *.
  subst entries. split; [done|]. by apply printed_app.
Qed.

Lemma missing_warnings_fmap (names : list string) :
  missing_warnings (WarnFileNotFound <$> names) = names.
Proof.
  induction names as [|n names IH]; [done|].
  change (missing_warnings (WarnFileNotFound <$> n :: names))
    with (n :: missing_warnings (WarnFileNotFound <$> names)).
  by rewrite IH.
Qed.

Lemma download_group_stores groupId st :
  fileGroupMap (download_group groupId st).1 = fileGroupMap st
  ∧ dataFile (download_group groupId st).1 = dataFile st
  ∧ uploads (download_group groupId st).1 = uploads st.
Proof.
  unfold download_group. destruct (lookup_group groupId st); try done.
  pose proof (zip_fold files st []) as (_ & Hmap & Hdoc & Hup & _).
  by destruct (foldl zip_file (st, []) files).
Qed.

Lemma name_in_archive_named name :
  name ≠ EmptyString → name_in_archive name = Named name.
Proof.
  intros Hname. unfold name_in_archive.
  by destruct (String.eqb_spec name EmptyString).
Qed.

Lemma named_storedName p :
  named p = true → originalName (storedName p) ≠ EmptyString.
Proof.
  unfold named, storedName. rewrite originalName_storage_filename.
  intros Hp%negb_true_iff. by apply String.eqb_neq.
Qed.



End Downloads.



Lemma sibling_errors_are_json (r : request) (st : server) :
  (∀ groupId, r ≠ GetDownloadGroup groupId) →
  (400 ≤ status (serve r st).2)%nat →
  is_json (serve r st).2 = true.
Proof.
  intros Hr Hstatus. destruct r as [flt o|name|groupId|groupId]; simpl in *.
  - destruct o as [code| |batch]; [done | done |].
    rewrite upload_accepted in *.
    destruct (disk_storage batch) as [|f [|f' files]]; done.
  - unfold download_file in *.
    destruct (existsSync name st); simpl in *; [lia | done].
  - by destruct (Hr groupId).
  - unfold group_info. by destruct (lookup_group groupId st).
Qed.

(** C7. The not-found answer of the group download is the plain text
    ["File group not found or empty."] with status 404, not a JSON object
    (the group info route answers the same lookup with JSON). *)
Theorem group_not_found_is_plain_text (st : server) (groupId : string) :
  fileGroupMap st !! groupId = None →
  download_group groupId st
  = (st, Response 404 (TextBody "File group not found or empty."))
  ∧ is_json (download_group groupId st).2 = false
  ∧ is_json (group_info groupId st) = true.
Proof.
  intros Hnone. unfold download_group, group_info, lookup_group.
  by rewrite Hnone.
Qed.

Lemma group_not_found_is_plain_text_witness :
  (download_group "nosuchgroup" fresh).2
  = Response 404 (TextBody "File group not found or empty.").
Proof.
  destruct (group_not_found_is_plain_text fresh "nosuchgroup" eq_refl) as [H _].
  by rewrite H.
Defined.

(** ** The expiry sweeper *)

Section Sweeper.

Variable now : N.

Lemma expired_iff stats :
  expired now stats = true
  ↔ (24 * 60 * 60 * 1000 < inject_Z (Z.of_N now) - mtimeMs stats)%Q.
Proof.
  unfold expired, ageHours, FILE_EXPIRY_HOURS.
  rewrite negb_true_iff, <- not_true_iff_false, Qle_bool_iff.
  change (inject_Z (1000 * 60 * 60)) with (3600000 # 1)%Q.
  generalize (inject_Z (Z.of_N now) - mtimeMs stats)%Q. intros age.
  split; intros H.
  - apply Qnot_le_lt in H. unfold Qdiv in H.
    change (/ (3600000 # 1))%Q with (1 # 3600000)%Q in H. lra.
  - apply Qlt_not_le. unfold Qdiv.
    change (/ (3600000 # 1))%Q with (1 # 3600000)%Q. lra.
Qed.

End Sweeper.

Lemma uploadDir_unbound : resolve "uploadDir" = None.
Proof. reflexivity. Qed.

Lemma uploadFolder_bound : resolve "uploadFolder" = Some (VPath uploadFolder).
Proof. reflexivity. Qed.

Lemma cleanupOldFiles_throws (now : N) (flt : faults) (st : server) :
  cleanupOldFiles now flt st
  = (Threw (ReferenceError "uploadDir"), print LogCleanupCheck st).
Proof. reflexivity. Qed.

(** C1. A run of the sweeper does not delete a blob older than the expiry
    threshold: [cleanupOldFiles] names the folder [uploadDir], which nothing
    declares (the folder is [uploadFolder]), so the run ends in a
    ReferenceError before the folder is listed, every blob stays, and the
    process under the timer exits. *)
Theorem sweep_deletes_nothing (now : N) (flt : faults) (st : server)
    (name : string) (stats : file) :
  uploads st !! name = Some stats →
  expired now stats = true →
  (cleanupOldFiles now flt st).1 = Threw (ReferenceError "uploadDir")
  ∧ uploads (cleanupOldFiles now flt st).2 !! name = Some stats
  ∧ interval_tick now flt (Running st)
    = Exited (ReferenceError "uploadDir") (print LogCleanupCheck st).
Proof.
  intros Hblob _. unfold interval_tick. rewrite cleanupOldFiles_throws.
  by simpl.
Qed.

Lemma sweep_deletes_nothing_witness :
  let st := Server ∅ None {["loyw3v28123-a.txt" := File 1700000000000]} [] in
  let now := (1700000000000 + 25 * 60 * 60 * 1000)%N in
  expired now (File 1700000000000) = true
  ∧ uploads (cleanupOldFiles now no_faults st).2 !! "loyw3v28123-a.txt"
    = Some (File 1700000000000).
Proof.
  intros st now.
  assert (Hexp : expired now (File 1700000000000) = true) by reflexivity.
  split; [exact Hexp|].
  apply (sweep_deletes_nothing now no_faults st "loyw3v28123-a.txt"
           (File 1700000000000) eq_refl Hexp).
Defined.

Lemma run_timer_exited ticks e st :
  run_timer ticks (Exited e st) = Exited e st.
Proof. induction ticks as [|t ticks IH]; [done|]. exact IH. Qed.

(** C2. A run of the sweeper processes no file at all: it ends in the
    ReferenceError for [uploadDir] before the folder is listed, so no
    error of an individual file is met or printed and no remaining file is
    processed; the exception ends the process, and no later firing of the
    timer runs. *)
Theorem sweep_run_ends_process (now : N) (flt : faults) (st : server)
    (later : list (N * faults)) :
  interval_tick now flt (Running st)
  = Exited (ReferenceError "uploadDir") (print LogCleanupCheck st)
  ∧ run_timer later (interval_tick now flt (Running st))
    = Exited (ReferenceError "uploadDir") (print LogCleanupCheck st)
  ∧ printed st (cleanupOldFiles now flt st).2 = [LogCleanupCheck]
  ∧ uploads (cleanupOldFiles now flt st).2 = uploads st.
Proof.
  assert (Hfirst : interval_tick now flt (Running st)
                   = Exited (ReferenceError "uploadDir")
                       (print LogCleanupCheck st)).
  { unfold interval_tick. by rewrite cleanupOldFiles_throws. }
  rewrite Hfirst, cleanupOldFiles_throws.
  split; [done|]. split; [apply run_timer_exited|].
  split; [|done]. unfold printed. simpl. by rewrite drop_app_length.
Qed.

(** * Further properties of the code *)

(** ** Taking a stored name apart (lines 155, 192, 225, 249) *)

Section Recover.

Lemma split_hyphen_free s :
  JS.hyphen_free s = true → JS.split JS.hyphen s = [s].
Proof.
  induction s as [|c s IH]; simpl; [done|].
  intros [Hc Hs]%andb_true_iff. apply negb_true_iff in Hc.
  by rewrite Hc, (IH Hs).
Qed.

Lemma split_head_hyphen_free s :
  JS.hyphen_free (default EmptyString (head (JS.split JS.hyphen s))) = true.
Proof.
  induction s as [|c s IH]; simpl; [done|].
  destruct (Ascii.eqb c JS.hyphen) eqn:Hc; [done|].
  destruct (JS.split JS.hyphen s) as [|piece pieces]; simpl in *.
  - by rewrite Hc.
  - by rewrite Hc, IH.
Qed.

Lemma split_with_hyphen s :
  JS.hyphen_free s = false →
  ∃ piece1 piece2 pieces, JS.split JS.hyphen s = piece1 :: piece2 :: pieces.
Proof.
  induction s as [|c s IH]; simpl; [done|].
  destruct (Ascii.eqb c JS.hyphen) eqn:Hc; simpl.
  - intros _. pose proof (split_nonempty JS.hyphen s) as Hne.
    destruct (JS.split JS.hyphen s) as [|piece pieces]; [done|]. eauto.
  - intros Hs. destruct (IH Hs) as (piece1 & piece2 & pieces & ->). eauto.
Qed.

End Recover.

(** X1. A name that holds a hyphen is put together again from the two
    parts the server takes from it: the identifier before the first hyphen,
    which itself holds no hyphen, and the original name after it. *)
Theorem name_decomposition (name : string) :
  JS.hyphen_free name = false →
  idOf name +:+ "-" +:+ originalName name = name
  ∧ JS.hyphen_free (idOf name) = true.
Proof.
  intros Hname. split; [|apply split_head_hyphen_free].
  destruct (split_with_hyphen name Hname) as (piece1 & piece2 & pieces & Hsplit).
  pose proof (join_split JS.hyphen name) as Hjoin.
  unfold idOf, originalName, JS.index0, JS.slice1.
  rewrite Hsplit in *. simpl head. simpl drop. simpl default.
  exact Hjoin.
Qed.

Lemma name_decomposition_witness :
  idOf "k1-my-file.txt" +:+ "-" +:+ originalName "k1-my-file.txt"
  = "k1-my-file.txt".
Proof. apply (name_decomposition "k1-my-file.txt" eq_refl). Defined.

(** X2. A name without any hyphen is its own identifier, and the original
    name recovered from it is empty. *)
Theorem name_without_hyphen (name : string) :
  JS.hyphen_free name = true →
  idOf name = name ∧ originalName name = "".
Proof.
  intros Hname. unfold idOf, originalName.
  by rewrite (split_hyphen_free name Hname).
Qed.

Lemma name_without_hyphen_witness :
  idOf "report.pdf" = "report.pdf" ∧ originalName "report.pdf" = "".
Proof. apply (name_without_hyphen "report.pdf" eq_refl). Defined.

(** ** The unique identifier (lines 81-83) *)

Section UniqueID.

Lemma substring_of_list n : ∀ l,
  String.substring 0 n (String.string_of_list_ascii l)
  = String.string_of_list_ascii (take n l).
Proof.
  induction n as [|n IH]; intros [|c l]; simpl; try done.
  by rewrite IH.
Qed.

Lemma salt_digits random :
  JS.substring 2 5 (JS.fraction_toString36 random)
  = String.string_of_list_ascii (JS.digit36 <$> take 3 random).
Proof.
  destruct random as [|d ds]; [done|].
  unfold JS.substring, JS.fraction_toString36.
  change ("0." +:+ ?s) with (String "0" (String "." s)).
  change (String.substring 2 (5 - 2) (String "0" (String "." ?s)))
    with (String.substring 0 3 s).
  by rewrite substring_of_list, fmap_take.
Qed.

Lemma length_string_of_list l :
  String.length (String.string_of_list_ascii l) = length l.
Proof. induction l as [|c l IH]; simpl; [done|]. by rewrite IH. Qed.

End UniqueID.

(** X3. Reading the base-36 numeral written for a clock reading gives the
    reading back, so different clock readings give different numerals. *)
Theorem toString36_roundtrip (n m : N) :
  JS.parseInt36 (JS.toString36 n) = n
  ∧ (JS.toString36 n = JS.toString36 m → n = m).
Proof. split; [apply parseInt36_toString36 | apply toString36_inj]. Qed.

(** X4. The unique identifier is the base-36 numeral of the clock reading
    followed by the first three base-36 digits of the random draw, or by
    fewer when the draw has fewer (by none when it is zero); only the
    characters [0-9a-z] occur in it. *)
Theorem uniqueID_shape (now : N) (random : list N) :
  uniqueID now random
  = JS.toString36 now
    +:+ String.string_of_list_ascii (JS.digit36 <$> take 3 random)
  ∧ String.length (uniqueID now random)
    = (String.length (JS.toString36 now) + min 3 (length random))%nat
  ∧ JS.all_digit36 (uniqueID now random) = true.
Proof.
  split; [|split].
  - unfold uniqueID. by rewrite salt_digits.
  - unfold uniqueID.
    rewrite salt_digits, string_length_app, length_string_of_list.
    by rewrite length_fmap, length_take.
  - apply uniqueID_all.
Qed.

(** ** What an upload answers and what it leaves alone (lines 102-183) *)

Section UploadAnswers.

Lemma upload_handler_nonempty flt f files st :
  ∃ link,
    (upload_handler flt (f :: files) st).2
    = Response 200 (JsonBody (JObject [
        ("message", JString "File(s) processed successfully");
        ("file_count", JNumber (length (f :: files)));
        ("download_link", JString link);
        ("qr_code", JQRCode link);
        ("uploaded_files", JArray (JString ∘ originalname <$> f :: files))])).
Proof.
  destruct files as [|f' files].
  - rewrite upload_handler_single. eauto.
  - rewrite upload_handler_group by (simpl; lia). eauto.
Qed.

Lemma dataFile_upload_saved flt batch st :
  write_fails flt = false →
  (1 < length batch)%nat →
  dataFile (upload flt (Accepted batch) st).1
  = Some (fileGroupMap (upload flt (Accepted batch) st).1).
Proof.
  intros Hw Hlen.
  rewrite upload_accepted, upload_handler_group
    by (by rewrite length_disk_storage).
  unfold saveFileGroupMap. by rewrite Hw.
Qed.

Lemma dataFile_upload_failed flt batch st :
  write_fails flt = true →
  dataFile (upload flt (Accepted batch) st).1 = dataFile st
  ∨ dataFile (upload flt (Accepted batch) st).1 = Some ∅.
Proof.
  intros Hw. destruct (decide (1 < length batch)%nat) as [Hlen|Hlen].
  - rewrite upload_accepted, upload_handler_group
      by (by rewrite length_disk_storage).
    unfold saveFileGroupMap. rewrite Hw.
    destruct (write_truncates flt); [by right | by left].
  - rewrite upload_small_batch_stores by lia. by left.
Qed.

Lemma originalName_storedName (batch : list part) :
  originalName <$> (storedName <$> batch) = part_originalname <$> batch.
Proof.
  rewrite <- list_fmap_compose. apply list_fmap_ext. intros i p _.
  apply originalName_storage_filename.
Qed.

End UploadAnswers.

(** X5. The group identifier derived from any non-empty batch consists of
    the characters [0-9a-z] only; in particular it holds no hyphen. *)
Theorem groupID_alphabet (batch : list part) :
  batch ≠ [] →
  JS.all_digit36 (groupID_of (disk_storage batch)) = true
  ∧ JS.hyphen_free (groupID_of (disk_storage batch)) = true.
Proof.
  destruct batch as [|p rest]; [done|]. intros _.
  rewrite groupID_of_cons. split.
  - apply uniqueID_all.
  - apply uniqueID_hyphen_free.
Qed.

Lemma groupID_alphabet_witness :
  JS.all_digit36
    (groupID_of (disk_storage [Part 1700000000000 [1; 2; 3]%N "a-b.txt";
                               Part 1700000000001 [4; 5; 6]%N "c.txt"]))
  = true.
Proof.
  apply (groupID_alphabet [Part 1700000000000 [1; 2; 3]%N "a-b.txt";
                           Part 1700000000001 [4; 5; 6]%N "c.txt"]).
  discriminate.
Defined.

(** X6. Every accepted, non-empty batch is answered 200 with the number of
    its files, their original names in upload order, and a QR code of the
    very link the answer carries. *)
Theorem upload_answer (flt : faults) (st : server) (batch : list part) :
  batch ≠ [] →
  status (upload flt (Accepted batch) st).2 = 200
  ∧ field "file_count" (upload flt (Accepted batch) st).2
    = Some (JNumber (length batch))
  ∧ field "uploaded_files" (upload flt (Accepted batch) st).2
    = Some (JArray (JString <$> (part_originalname <$> batch)))
  ∧ ∃ link,
      field "download_link" (upload flt (Accepted batch) st).2
      = Some (JString link)
      ∧ field "qr_code" (upload flt (Accepted batch) st).2 = Some (JQRCode link).
Proof.
  intros Hne. rewrite upload_accepted.
  pose proof (length_disk_storage batch) as Hlen.
  pose proof (originalname_disk_storage batch) as Hnames.
  destruct (disk_storage batch) as [|f files] eqn:Hfiles.
  { destruct batch; [done | discriminate]. }
  destruct (upload_handler_nonempty flt f files (store_blobs batch st))
    as [link ->].
  rewrite <- Hlen, <- Hnames, list_fmap_compose.
  repeat split. by exists link.
Qed.

Lemma upload_answer_witness :
  field "file_count"
    (upload no_faults
       (Accepted [Part 1700000000000 [1; 2; 3]%N "a.txt"]) fresh).2
  = Some (JNumber 1).
Proof.
  apply (upload_answer no_faults fresh
           [Part 1700000000000 [1; 2; 3]%N "a.txt"]).
  discriminate.
Defined.

(** X7. An upload that is not answered 200 leaves the map in memory and
    the document on disk as they were. *)
Theorem rejected_upload_keeps_store (flt : faults) (o : multer_outcome)
    (st : server) :
  status (upload flt o st).2 ≠ 200 →
  fileGroupMap (upload flt o st).1 = fileGroupMap st
  ∧ dataFile (upload flt o st).1 = dataFile st.
Proof.
  destruct o as [code| |batch]; [done | done |].
  destruct batch as [|p batch]; [done|].
  intros Hstatus. destruct Hstatus.
  rewrite upload_accepted. simpl disk_storage.
  by destruct (upload_handler_nonempty flt
                 (FileInfo (part_originalname p) (storedName p))
                 (disk_storage batch) (store_blobs (p :: batch) st))
    as [link ->].
Qed.

Lemma rejected_upload_keeps_store_witness :
  fileGroupMap (upload no_faults (MulterError "LIMIT_FILE_COUNT") fresh).1 = ∅.
Proof.
  apply (rejected_upload_keeps_store no_faults
           (MulterError "LIMIT_FILE_COUNT") fresh).
  simpl. lia.
Defined.

(** X8. An upload changes the retention store at no key other than the
    group identifier of its own batch. *)
Theorem upload_frame (flt : faults) (o : multer_outcome) (st : server)
    (g : string) :
  (∀ batch, o = Accepted batch → g ≠ groupID_of (disk_storage batch)) →
  fileGroupMap (upload flt o st).1 !! g = fileGroupMap st !! g.
Proof.
  intros Hg. destruct o as [code| |batch]; [done | done |].
  destruct (decide (1 < length batch)%nat) as [Hlen|Hlen].
  - rewrite upload_group_map by done.
    apply lookup_insert_ne. intros Heq. by apply (Hg batch).
  - rewrite upload_small_batch_stores by lia. done.
Qed.

Lemma upload_frame_witness :
  let first := [Part 1700000000000 [1; 2; 3]%N "a.txt";
                Part 1700000000000 [4; 5; 6]%N "b.txt"] in
  let second := [Part 1700000000777 [7; 8; 9]%N "c.txt";
                 Part 1700000000777 [1; 1; 1]%N "d.txt"] in
  fileGroupMap
    (upload no_faults (Accepted second)
       (upload no_faults (Accepted first) fresh).1).1 !! "loyw3v28123"
  = Some ["loyw3v28123-a.txt"; "loyw3v28456-b.txt"].
Proof.
  intros first second.
  rewrite (upload_frame no_faults (Accepted second)
             (upload no_faults (Accepted first) fresh).1 "loyw3v28123").
  - reflexivity.
  - intros batch [= <-]. vm_compute. discriminate.
Defined.

(** ** The document on disk and a restart (lines 36-64, 157-159) *)

Section Persistence.

Lemma serve_in_sync r st :
  saves r = true →
  loadFileGroupMap (dataFile st) = fileGroupMap st →
  loadFileGroupMap (dataFile (serve r st).1) = fileGroupMap (serve r st).1.
Proof.
  intros Hsaves Hsync.
  destruct r as [flt o|name|groupId|groupId]; simpl in Hsaves; try done.
  - apply negb_true_iff in Hsaves.
    destruct o as [code| |batch]; [done | done |]. unfold serve.
    destruct (decide (1 < length batch)%nat) as [Hlen|Hlen].
    + by rewrite dataFile_upload_saved.
    + rewrite upload_small_batch_stores by lia. done.
  - unfold serve.
    destruct (download_group_stores groupId st) as (-> & -> & _). done.
Qed.

Lemma serve_all_in_sync rs : ∀ st,
  forallb saves rs = true →
  loadFileGroupMap (dataFile st) = fileGroupMap st →
  loadFileGroupMap (dataFile (serve_all rs st)) = fileGroupMap (serve_all rs st).
Proof.
  induction rs as [|r rs IH]; intros st Hsaves Hsync; [done|].
  simpl in Hsaves. apply andb_true_iff in Hsaves as [Hr Hrs].
  change (serve_all (r :: rs) st) with (serve_all rs (serve r st).1).
  apply IH; [done|]. by apply serve_in_sync.
Qed.

Lemma lookup_group_ext g st1 st2 :
  fileGroupMap st1 = fileGroupMap st2 → lookup_group g st1 = lookup_group g st2.
Proof. unfold lookup_group. by intros ->. Qed.

Lemma group_info_ext g st1 st2 :
  fileGroupMap st1 = fileGroupMap st2 → group_info g st1 = group_info g st2.
Proof. intros H. unfold group_info. by rewrite (lookup_group_ext g st1 st2 H). Qed.

End Persistence.

(** X9. Started from a state in which the map in memory is the one loaded
    from disk, and as long as no write of the document fails, the server
    keeps the two alike through every sequence of requests: a restart then
    finds every group again and answers group info as before. *)
Theorem restart_keeps_groups (rs : list request) (st : server) :
  loadFileGroupMap (dataFile st) = fileGroupMap st →
  forallb saves rs = true →
  fileGroupMap (restart (serve_all rs st)) = fileGroupMap (serve_all rs st)
  ∧ ∀ g, group_info g (restart (serve_all rs st))
         = group_info g (serve_all rs st).
Proof.
  intros Hsync Hsaves.
  assert (Hmap : fileGroupMap (restart (serve_all rs st))
                 = fileGroupMap (serve_all rs st))
    by (by apply serve_all_in_sync).
  split; [done|]. intros g. by apply group_info_ext.
Qed.

Lemma restart_keeps_groups_witness :
  let batch := [Part 1700000000000 [1; 2; 3]%N "a.txt";
                Part 1700000000001 [4; 5; 6]%N "b.txt"] in
  let rs := [PostUpload no_faults (Accepted batch);
             GetDownloadGroup "loyw3v28123"] in
  fileGroupMap (restart (serve_all rs fresh)) !! "loyw3v28123"
  = Some ["loyw3v28123-a.txt"; "loyw3v29456-b.txt"].
Proof.
  intros batch rs.
  rewrite (proj1 (restart_keeps_groups rs fresh eq_refl eq_refl)).
  reflexivity.
Defined.

(** X10. A group whose write to disk failed is served from memory, but is
    gone after a restart unless the document already held its identifier. *)
Theorem unsaved_group_lost_on_restart (flt : faults) (st : server)
    (batch : list part) :
  write_fails flt = true →
  (1 < length batch)%nat →
  loadFileGroupMap (dataFile st) !! groupID_of (disk_storage batch) = None →
  status (group_info (groupID_of (disk_storage batch))
            (upload flt (Accepted batch) st).1) = 200
  ∧ lookup_group (groupID_of (disk_storage batch))
      (restart (upload flt (Accepted batch) st).1) = GroupUnknown
  ∧ status (group_info (groupID_of (disk_storage batch))
              (restart (upload flt (Accepted batch) st).1)) = 404.
Proof.
  intros Hw Hlen Hdoc.
  assert (Hlost : lookup_group (groupID_of (disk_storage batch))
                    (restart (upload flt (Accepted batch) st).1) = GroupUnknown).
  { unfold lookup_group.
    change (fileGroupMap (restart ?s)) with (loadFileGroupMap (dataFile s)).
    destruct (dataFile_upload_failed flt batch st Hw) as [-> | ->].
    - by rewrite Hdoc.
    - done. }
  split; [|split; [done|]].
  - unfold group_info.
    rewrite (lookup_group_files _ _ (storedName <$> batch)).
    + done.
    + rewrite upload_group_map by done. apply lookup_insert_eq.
    + destruct batch; [simpl in Hlen; lia | done].
  - unfold group_info. by rewrite Hlost.
Qed.

Lemma unsaved_group_lost_on_restart_witness :
  let flt := Faults true false (λ _, false) (λ _, false) false in
  let batch := [Part 1700000000000 [1; 2; 3]%N "a.txt";
                Part 1700000000001 [4; 5; 6]%N "b.txt"] in
  lookup_group "loyw3v28123" (restart (upload flt (Accepted batch) fresh).1)
  = GroupUnknown.
Proof.
  intros flt batch.
  apply (unsaved_group_lost_on_restart flt fresh batch eq_refl
           ltac:(simpl; lia) eq_refl).
Defined.

(** ** A group right after its upload (lines 151-159, 202-259) *)

(** X11. Group info asked for the identifier of a batch just uploaded
    lists the original names of the batch, in upload order, and carries the
    same link as the upload's answer. *)
Theorem group_info_after_upload (flt : faults) (st : server) (batch : list part) :
  (1 < length batch)%nat →
  let g := groupID_of (disk_storage batch) in
  group_info g (upload flt (Accepted batch) st).1
  = Response 200 (JsonBody (JObject [
      ("type", JString "group");
      ("groupId", JString g);
      ("files", JArray ((λ p, JObject [("name", JString (part_originalname p))])
                        <$> batch));
      ("download_link", JString (BASE_URL +:+ "/download-group/" +:+ g))]))
  ∧ field "download_link" (upload flt (Accepted batch) st).2
    = field "download_link" (group_info g (upload flt (Accepted batch) st).1).
Proof.
  intros Hlen g.
  assert (Hinfo : group_info g (upload flt (Accepted batch) st).1
    = Response 200 (JsonBody (JObject [
        ("type", JString "group");
        ("groupId", JString g);
        ("files", JArray ((λ p, JObject [("name", JString (part_originalname p))])
                          <$> batch));
        ("download_link", JString (BASE_URL +:+ "/download-group/" +:+ g))]))).
  { unfold group_info.
    rewrite (lookup_group_files _ _ (storedName <$> batch)).
    - rewrite <- list_fmap_compose.
      rewrite (list_fmap_ext _
                 (λ p, JObject [("name", JString (part_originalname p))]) batch);
        [done|].
      intros i p _. simpl. unfold storedName.
      by rewrite originalName_storage_filename.
    - rewrite upload_group_map by done. apply lookup_insert_eq.
    - destruct batch; [simpl in Hlen; lia | done]. }
  split; [done|]. rewrite Hinfo.
  rewrite upload_accepted.
  rewrite upload_handler_group by (by rewrite length_disk_storage). done.
Qed.

Lemma group_info_after_upload_witness :
  let batch := [Part 1700000000000 [1; 2; 3]%N "my-a.txt";
                Part 1700000000001 [4; 5; 6]%N "b.txt"] in
  field "files" (group_info "loyw3v28123"
                   (upload no_faults (Accepted batch) fresh).1)
  = Some (JArray [JObject [("name", JString "my-a.txt")];
                  JObject [("name", JString "b.txt")]]).
Proof.
  intros batch.
  pose proof (proj1 (group_info_after_upload no_faults fresh batch
                       ltac:(simpl; lia))) as H.
  change (groupID_of (disk_storage batch)) with "loyw3v28123" in H.
  rewrite H. reflexivity.
Defined.


(** ** Downloads (lines 188-235) *)

(** X12. The group download right after the upload of a batch of two or
    more files is answered 200 with one archive entry per file, in upload
    order, each under its original name, and reports no blob missing: the
    blobs the upload stored are all found. *)
Theorem full_archive (flt : faults) (st : server) (batch : list part) :
  (1 < length batch)%nat →
  forallb named batch = true →
  let g := groupID_of (disk_storage batch) in
  let st1 := (upload flt (Accepted batch) st).1 in
  (download_group g st1).2
  = Response 200
      (ZipBody ("SwiftShare_Files_" +:+ g +:+ ".zip")
         ((λ p, ArchiveEntry (storedName p) (Named (part_originalname p)))
          <$> batch))
  ∧ missing_warnings (printed st1 (download_group g st1).1) = [].
Proof.
  intros Hlen Hnamed g st1.
  assert (Hall : ∀ n, n ∈ storedName <$> batch → existsSync n st1 = true).
  { intros n (p & -> & Hp)%list_elem_of_fmap. unfold existsSync, st1.
    rewrite uploads_upload. by apply bool_decide_eq_true_2, write_blob_stored. }
  destruct (download_group_found st1 g (storedName <$> batch)) as [Hresp Hlog].
  - unfold st1, g. rewrite upload_group_map by done. apply lookup_insert_eq.
  - destruct batch; [simpl in Hlen; lia | done].
  - split.
    + rewrite Hresp, (filter_all _ _ Hall), <- list_fmap_compose.
      do 2 f_equal. apply list_fmap_ext. intros i p Hp. simpl.
      rewrite name_in_archive_named.
      * unfold storedName at 2. by rewrite originalName_storage_filename.
      * apply named_storedName. rewrite forallb_forall in Hnamed.
        by apply Hnamed, list_elem_of_In, list_elem_of_lookup_2 with i.
    + rewrite Hlog, missing_warnings_fmap, filter_none; [done|].
      intros n Hn. by rewrite (Hall n Hn).
Qed.

Lemma full_archive_witness :
  let batch := [Part 1700000000000 [1; 2; 3]%N "my-a.txt";
                Part 1700000000001 [4; 5; 6]%N "b.txt"] in
  (download_group "loyw3v28123" (upload no_faults (Accepted batch) fresh).1).2
  = Response 200
      (ZipBody "SwiftShare_Files_loyw3v28123.zip"
         [ArchiveEntry "loyw3v28123-my-a.txt" (Named "my-a.txt");
          ArchiveEntry "loyw3v29456-b.txt" (Named "b.txt")]).
Proof.
  intros batch.
  apply (proj1 (full_archive no_faults fresh batch ltac:(simpl; lia) eq_refl)).
Defined.





(** X16. Every answer of the upload route other than 200 is a JSON object
    with a string under [error]: status 400 when multer reports one of its
    own errors, whose code is repeated under [code], or when no file came;
    status 500 when multer failed in another way. *)
Theorem upload_error_answers (flt : faults) (o : multer_outcome) (st : server) :
  status (upload flt o st).2 ≠ 200 →
  (∃ message, field "error" (upload flt o st).2 = Some (JString message))
  ∧ ((status (upload flt o st).2 = 400
      ∧ (o = Accepted []
         ∨ ∃ code, o = MulterError code
                   ∧ field "code" (upload flt o st).2 = Some (JString code)))
     ∨ (status (upload flt o st).2 = 500 ∧ o = OtherError)).
Proof.
  intros Hstatus. destruct o as [code| |batch].
  - split; [by eexists|]. left. split; [done|]. right. by exists code.
  - split; [by eexists|]. by right.
  - destruct batch as [|p batch].
    + split; [by eexists|]. left. split; [done|]. by left.
    + destruct Hstatus. rewrite upload_accepted. simpl disk_storage.
      by destruct (upload_handler_nonempty flt
                     (FileInfo (part_originalname p) (storedName p))
                     (disk_storage batch) (store_blobs (p :: batch) st))
        as [link ->].
Qed.

Lemma upload_error_answers_witness :
  field "code" (upload no_faults (MulterError "LIMIT_FILE_SIZE") fresh).2
  = Some (JString "LIMIT_FILE_SIZE").
Proof.
  destruct (upload_error_answers no_faults (MulterError "LIMIT_FILE_SIZE") fresh
              ltac:(vm_compute; discriminate)) as [_ [[_ [H|H]]|[H _]]].
  - discriminate H.
  - destruct H as (code & [= <-] & H). exact H.
  - vm_compute in H. discriminate H.
Defined.

(** X17. For a plain file name, a direct download is answered 200 exactly
    when the upload folder holds a blob of that name and 404 exactly when
    it does not; for the stored name of an uploaded file the suggested name
    is the original name; the route changes nothing. *)
Theorem download_file_answer (st : server) (name : string) :
  plain_name name = true →
  (status (download_file name st) = 200 ↔ is_Some (uploads st !! name))
  ∧ (status (download_file name st) = 404 ↔ uploads st !! name = None)
  ∧ (∀ p, name = storedName p → is_Some (uploads st !! name) →
          download_file name st
          = Response 200 (DownloadBody name (part_originalname p)))
  ∧ (serve (GetDownloadFile name) st).1 = st.
Proof.
  intros _. unfold download_file, existsSync.
  destruct (uploads st !! name) as [blob|] eqn:Hblob.
  - rewrite bool_decide_eq_true_2 by done. simpl.
    split; [|split; [|split]].
    + done.
    + split; [intros [=] | intros [=]].
    + intros p -> _. unfold storedName at 2.
      by rewrite originalName_storage_filename.
    + done.
  - rewrite bool_decide_eq_false_2 by (by apply is_Some_None). simpl.
    split; [|split; [|split]].
    + split; [intros [=] | by intros [? ?]].
    + done.
    + by intros p _ [? ?].
    + done.
Qed.

Lemma download_file_answer_witness :
  let batch := [Part 1700000000000 [1; 2; 3]%N "my-a.txt"] in
  download_file "loyw3v28123-my-a.txt"
    (upload no_faults (Accepted batch) fresh).1
  = Response 200 (DownloadBody "loyw3v28123-my-a.txt" "my-a.txt").
Proof.
  intros batch.
  destruct (download_file_answer (upload no_faults (Accepted batch) fresh).1
              "loyw3v28123-my-a.txt" eq_refl) as (_ & _ & H & _).
  apply (H (Part 1700000000000 [1; 2; 3]%N "my-a.txt") eq_refl).
  vm_compute. by eexists.
Defined.

(** X18. The routes that only read (direct download, group download, group
    info) leave the map in memory, the document on disk and the upload
    folder as they are. *)
Theorem get_routes_read_only (r : request) (st : server) :
  (∀ flt o, r ≠ PostUpload flt o) →
  fileGroupMap (serve r st).1 = fileGroupMap st
  ∧ dataFile (serve r st).1 = dataFile st
  ∧ uploads (serve r st).1 = uploads st.
Proof.
  intros Hr. destruct r as [flt o|name|groupId|groupId]; try done.
  - by destruct (Hr flt o).
  - apply download_group_stores.
Qed.

Lemma get_routes_read_only_witness :
  let st := Server {["g" := ["k1-A.txt"]]} None ∅ [] in
  uploads (serve (GetDownloadGroup "g") st).1 = ∅.
Proof.
  intros st.
  apply (get_routes_read_only (GetDownloadGroup "g") st ltac:(discriminate)).
Defined.

(** X19. While the process runs, no request removes a group: an identifier
    the map holds is still held after every sequence of requests. *)
Theorem groups_never_removed (rs : list request) (st : server) (g : string) :
  is_Some (fileGroupMap st !! g) →
  is_Some (fileGroupMap (serve_all rs st) !! g).
Proof.
  revert st. induction rs as [|r rs IH]; intros st Hg; [done|].
  change (serve_all (r :: rs) st) with (serve_all rs (serve r st).1).
  apply IH. destruct r as [flt o|name|groupId|groupId];
    try (rewrite fileGroupMap_serve_other; [done | by intros ? ?]).
  destruct o as [code| |batch]; [done | done |]. unfold serve.
  destruct (decide (1 < length batch)%nat) as [Hlen|Hlen].
  - rewrite upload_group_map by done.
    destruct (decide (groupID_of (disk_storage batch) = g)) as [<-|Hne].
    + by rewrite lookup_insert_eq.
    + by rewrite lookup_insert_ne.
  - rewrite upload_small_batch_stores by lia. done.
Qed.

Lemma groups_never_removed_witness :
  let st := Server {["g" := ["k1-A.txt"]]} None ∅ [] in
  let rs := [GetGroupInfo "g";
             PostUpload no_faults
               (Accepted [Part 1700000000000 [1; 2; 3]%N "a.txt";
                          Part 1700000000000 [4; 5; 6]%N "b.txt"])] in
  is_Some (fileGroupMap (serve_all rs st) !! "g").
Proof.
  intros st rs.
  apply (groups_never_removed rs st "g"). by eexists.
Defined.


(** ** The threshold and the timer (lines 265-291) *)

(** X20. A blob is past its time exactly when more than 86 400 000
    milliseconds lie between its last change and the clock reading of the
    run; a blob of exactly that age is not, and once past its time a blob
    stays so at every later reading. *)
Theorem expiry_threshold (now later : N) (stats : file) :
  (expired now stats = true
   ↔ (86400000 < inject_Z (Z.of_N now) - mtimeMs stats)%Q)
  ∧ (expired now stats = true → (now ≤ later)%N → expired later stats = true).
Proof.
  split.
  - rewrite expired_iff. done.
  - rewrite !expired_iff. intros Hnow Hle.
    eapply Qlt_le_trans; [exact Hnow|].
    apply Qplus_le_l. rewrite <- Zle_Qle. lia.
Qed.

Lemma expiry_threshold_witness :
  expired (86400000 + 2) (File 0) = true.
Proof.
  apply (proj2 (expiry_threshold (86400000 + 1) (86400000 + 2) (File 0))
           eq_refl).
  lia.
Defined.

(** X24. However often the timer fires, the sweep is begun once and never
    again: the first firing ends the process, the upload folder is as it
    was at the start, and the single line printed is that of the first
    check. *)
Theorem timer_runs_once (ticks : list (N * faults)) (st : server) :
  ticks ≠ [] →
  run_timer ticks (Running st)
  = Exited (ReferenceError "uploadDir") (print LogCleanupCheck st)
  ∧ uploads (print LogCleanupCheck st) = uploads st.
Proof.
  intros Hticks. split; [|done].
  destruct ticks as [|[now flt] ticks]; [done|].
  change (run_timer ((now, flt) :: ticks) (Running st))
    with (run_timer ticks (interval_tick now flt (Running st))).
  assert (Hfirst : interval_tick now flt (Running st)
                   = Exited (ReferenceError "uploadDir")
                       (print LogCleanupCheck st)).
  { unfold interval_tick. by rewrite cleanupOldFiles_throws. }
  rewrite Hfirst. apply run_timer_exited.
Qed.

Lemma timer_runs_once_witness :
  run_timer [(1700000000000%N, no_faults); (1700003600000%N, no_faults)]
    (Running fresh)
  = Exited (ReferenceError "uploadDir") (print LogCleanupCheck fresh).
Proof.
  apply (proj1 (timer_runs_once
                  [(1700000000000%N, no_faults); (1700003600000%N, no_faults)]
                  fresh ltac:(discriminate))).
Defined.
